(** * A contact book with birthdays: the model of [main.py] and its properties

    The development follows the program bottom-up: the pieces of the Python
    runtime the program calls ([str.isdigit], [int], the regular expression
    behind [datetime.strptime], the calendar arithmetic of [datetime]), then
    the classes [Field], [Phone], [Birthday], [Record], [AddressBook], the
    command handlers and [load_data].  Theorems come after all definitions. *)

From Stdlib Require Import ZArith NArith List Bool Lia String Ascii.
From stdpp Require Import base decidable option list numbers.

Set Default Proof Using "Type".

(** ** Python values the program handles *)

Module Py.

(** A Python [str] is a sequence of Unicode code points; [len] of a string
    counts code points, not bytes. *)
Definition char := N.
Definition pystr := list char.

(** Literals of the source are written [py "..."]; they are ASCII. *)
Definition py (s : string) : pystr := map N_of_ascii (list_ascii_of_string s).

Definition len {A} (s : list A) : Z := Z.of_nat (length s).

(** The exceptions that the program raises, catches or lets escape.  A
    message is kept for those that [input_error] turns into text. *)
Inductive exn :=
| ValueError (msg : pystr)
| IndexError (msg : pystr)
| OverflowError (msg : pystr)
| AttributeError (msg : pystr)
| FileNotFoundError
| PermissionError
| EOFError
| UnpicklingError.

Inductive result (A : Type) :=
| Ok (a : A)
| Raise (e : exn).
Arguments Ok {A} a.
Arguments Raise {A} e.

Definition bind {A B} (m : result A) (k : A → result B) : result B :=
  match m with
  | Ok a => k a
  | Raise e => Raise e
  end.

(** [try: m except ValueError: raise e'] *)
Definition except_ValueError {A} (m : result A) (handler : result A) : result A :=
  match m with
  | Raise (ValueError _) => handler
  | _ => m
  end.

Definition in_ranges (table : list (N * N)) (c : char) : bool :=
  existsb (λ r, (fst r <=? c)%N && (c <=? snd r)%N) table.

(** Code points with Unicode property Numeric_Type=Decimal (general category
    Nd), Unicode 14.0 as shipped with CPython 3.11.  Every range starts at a
    digit zero and runs through whole groups of ten. *)
Definition decimal_ranges : list (N * N) :=
  [
    (48, 57); (1632, 1641); (1776, 1785); (1984, 1993);
    (2406, 2415); (2534, 2543); (2662, 2671); (2790, 2799);
    (2918, 2927); (3046, 3055); (3174, 3183); (3302, 3311);
    (3430, 3439); (3558, 3567); (3664, 3673); (3792, 3801);
    (3872, 3881); (4160, 4169); (4240, 4249); (6112, 6121);
    (6160, 6169); (6470, 6479); (6608, 6617); (6784, 6793);
    (6800, 6809); (6992, 7001); (7088, 7097); (7232, 7241);
    (7248, 7257); (42528, 42537); (43216, 43225); (43264, 43273);
    (43472, 43481); (43504, 43513); (43600, 43609); (44016, 44025);
    (65296, 65305); (66720, 66729); (68912, 68921); (69734, 69743);
    (69872, 69881); (69942, 69951); (70096, 70105); (70384, 70393);
    (70736, 70745); (70864, 70873); (71248, 71257); (71360, 71369);
    (71472, 71481); (71904, 71913); (72016, 72025); (72784, 72793);
    (73040, 73049); (73120, 73129); (92768, 92777); (92864, 92873);
    (93008, 93017); (120782, 120831); (123200, 123209); (123632, 123641);
    (125264, 125273); (130032, 130041)
  ]%N.

(** Code points with Numeric_Type=Digit that are not decimal: superscripts,
    subscripts, circled digits and the like. *)
Definition digit_only_ranges : list (N * N) :=
  [
    (178, 179); (185, 185); (4969, 4977); (6618, 6618);
    (8304, 8304); (8308, 8313); (8320, 8329); (9312, 9320);
    (9332, 9340); (9352, 9360); (9450, 9450); (9461, 9469);
    (9471, 9471); (10102, 10110); (10112, 10120); (10122, 10130);
    (68160, 68163); (69216, 69224); (69714, 69722); (127232, 127242)
  ]%N.

(** Code points that [int] skips around a number: the white space of
    [str.isspace] but for the four separators U+001C to U+001F. *)
Definition int_space_ranges : list (N * N) :=
  [
    (9, 13); (32, 32); (133, 133); (160, 160);
    (5760, 5760); (8192, 8202); (8232, 8233); (8239, 8239);
    (8287, 8287); (12288, 12288)
  ]%N.

Definition isdecimal_char (c : char) : bool := in_ranges decimal_ranges c.
Definition isdigit_char (c : char) : bool :=
  isdecimal_char c || in_ranges digit_only_ranges c.
Definition int_space_char (c : char) : bool := in_ranges int_space_ranges c.

(** [str.isdigit]: true when the string is not empty and every character
    is a digit. *)
Definition isdigit (s : pystr) : bool :=
  match s with
  | [] => false
  | _ => forallb isdigit_char s
  end.

(** The value of a decimal character: its offset in its group of ten. *)
Definition decimal_value (c : char) : Z :=
  match find (λ r, (fst r <=? c)%N && (c <=? snd r)%N) decimal_ranges with
  | Some r => Z.of_N ((c - fst r) mod 10)
  | None => 0
  end.

Fixpoint lstrip (s : pystr) : pystr :=
  match s with
  | c :: s' => if int_space_char c then lstrip s' else s
  | [] => []
  end.

Definition strip (s : pystr) : pystr := rev (lstrip (rev (lstrip s))).

Definition digits_value (s : pystr) : Z :=
  fold_left (λ acc c, 10 * acc + decimal_value c)%Z s 0%Z.

(** [int(s)] on text made of decimal digits with optional surrounding white
    space, which is all that the groups of the date pattern can hold.  Signs
    and underscores, which [int] also reads, are outside this fragment and
    are answered like any other malformed literal. *)
Definition py_int (s : pystr) : result Z :=
  match strip s with
  | [] => Raise (ValueError (py "invalid literal for int() with base 10"))
  | t => if forallb isdecimal_char t then Ok (digits_value t)
         else Raise (ValueError (py "invalid literal for int() with base 10"))
  end.

(** [str(n)] for an integer that is not negative. *)
Definition digit_char (d : Z) : char := (48 + Z.to_N d)%N.

Fixpoint decimal_digits (fuel : nat) (n : Z) (acc : pystr) : pystr :=
  match fuel with
  | O => acc
  | S fuel' =>
      if (n <? 10)%Z then digit_char n :: acc
      else decimal_digits fuel' (n / 10)%Z (digit_char (n mod 10)%Z :: acc)
  end.

Definition str_of_int (n : Z) : pystr := decimal_digits (S (Z.to_nat n)) n [].

(** [sep.join(parts)] *)
Fixpoint join (sep : pystr) (parts : list pystr) : pystr :=
  match parts with
  | [] => []
  | [p] => p
  | p :: rest => p ++ sep ++ join sep rest
  end.

(** Code points for which [str.isspace] holds; [str.split()] cuts a string
    at them. *)
Definition whitespace_ranges : list (N * N) :=
  [
    (9, 13); (28, 32); (133, 133); (160, 160);
    (5760, 5760); (8192, 8202); (8232, 8233); (8239, 8239);
    (8287, 8287); (12288, 12288)
  ]%N.

Definition isspace_char (c : char) : bool := in_ranges whitespace_ranges c.

(** [s.split()]: the runs of characters that are not white space, in their
    order; [word] is the run being read. *)
Fixpoint split_loop (s : pystr) (word : pystr) : list pystr :=
  match s with
  | c :: s' =>
      if isspace_char c then
        match word with
        | [] => split_loop s' []
        | _ => word :: split_loop s' []
        end
      else split_loop s' (word ++ [c])
  | [] =>
      match word with
      | [] => []
      | _ => [word]
      end
  end.

Definition split (s : pystr) : list pystr := split_loop s [].

End Py.

(** ** The regular expressions of [_strptime] *)

Module Re.
Import Py.

(** The fragment of [re] syntax that the date pattern needs.  The pattern is
    compiled with [IGNORECASE]; no class below holds a cased letter, so the
    flag changes nothing. *)
Inductive regex :=
| Chr (c : char)
| Rng (lo hi : char)
| DigitClass
| Seq (r1 r2 : regex)
| Alt (r1 r2 : regex)
| Group (name : string) (r : regex).

(** One way of matching a prefix: the text consumed, the text left, and the
    named groups set on the way. *)
Record attempt := mkAttempt {
  consumed : pystr;
  rest : pystr;
  groups : list (string * pystr)
}.

Definition step (p : char → bool) (s : pystr) : list attempt :=
  match s with
  | c :: s' => if p c then [mkAttempt [c] s' []] else []
  | [] => []
  end.

(** All the ways [r] matches a prefix of [s], in the order in which the
    backtracking matcher of [re] tries them: the left branch of an
    alternation before the right one. *)
Fixpoint run (r : regex) (s : pystr) : list attempt :=
  match r with
  | Chr c => step (N.eqb c) s
  | Rng lo hi => step (λ x, (lo <=? x)%N && (x <=? hi)%N) s
  | DigitClass => step isdecimal_char s
  | Seq r1 r2 =>
      flat_map (λ a1,
        map (λ a2, mkAttempt (consumed a1 ++ consumed a2) (rest a2)
                             (groups a1 ++ groups a2))
            (run r2 (rest a1)))
        (run r1 s)
  | Alt r1 r2 => run r1 s ++ run r2 s
  | Group name r =>
      map (λ a, mkAttempt (consumed a) (rest a) ((name, consumed a) :: groups a))
          (run r s)
  end.

(** [pattern.match(s)]: the first way found, if any. *)
Definition re_match (r : regex) (s : pystr) : option attempt := head (run r s).

Fixpoint group (name : string) (gs : list (string * pystr)) : pystr :=
  match gs with
  | (n, text) :: gs' => if String.eqb n name then text else group name gs'
  | [] => []
  end.

Definition chr (s : string) : char :=
  match s with
  | String a _ => N_of_ascii a
  | EmptyString => 0%N
  end.

Definition rng (lo hi : string) : regex := Rng (chr lo) (chr hi).
Definition lit (s : string) : regex := Chr (chr s).

(** ['d': r"(?P<d>3[0-1]|[1-2]\d|0[1-9]|[1-9]| [1-9])"] *)
Definition directive_d : regex :=
  Group "d"
    (Alt (Seq (lit "3") (rng "0" "1"))
    (Alt (Seq (rng "1" "2") DigitClass)
    (Alt (Seq (lit "0") (rng "1" "9"))
    (Alt (rng "1" "9")
         (Seq (lit " ") (rng "1" "9")))))).

(** ['m': r"(?P<m>1[0-2]|0[1-9]|[1-9])"] *)
Definition directive_m : regex :=
  Group "m"
    (Alt (Seq (lit "1") (rng "0" "2"))
    (Alt (Seq (lit "0") (rng "1" "9"))
         (rng "1" "9"))).

(** ['Y': r"(?P<Y>\d\d\d\d)"] *)
Definition directive_Y : regex :=
  Group "Y" (Seq DigitClass (Seq DigitClass (Seq DigitClass DigitClass))).

(** [TimeRE.pattern("%d.%m.%Y")]: each dot of the format is escaped and
    each directive replaced by its expression. *)
Definition format_regex : regex :=
  Seq directive_d (Seq (lit ".") (Seq directive_m (Seq (lit ".") directive_Y))).

End Re.

(** ** Calendar arithmetic of [datetime] *)

Module Datetime.
Import Py.
Local Open Scope Z_scope.

Definition MINYEAR : Z := 1.
Definition MAXYEAR : Z := 9999.
Definition _MAXORDINAL : Z := 3652059.

Definition _DAYS_IN_MONTH : list Z :=
  [-1; 31; 28; 31; 30; 31; 30; 31; 31; 30; 31; 30; 31].

Definition _DAYS_BEFORE_MONTH : list Z :=
  [-1; 0; 31; 59; 90; 120; 151; 181; 212; 243; 273; 304; 334].

Definition index (l : list Z) (i : Z) : Z := nth (Z.to_nat i) l 0.

Definition int_of_bool (b : bool) : Z := if b then 1 else 0.

Definition _is_leap (year : Z) : bool :=
  (year mod 4 =? 0) && (negb (year mod 100 =? 0) || (year mod 400 =? 0)).

Definition _days_before_year (year : Z) : Z :=
  let y := year - 1 in
  y * 365 + y / 4 - y / 100 + y / 400.

Definition _days_in_month (year month : Z) : Z :=
  if (month =? 2) && _is_leap year then 29 else index _DAYS_IN_MONTH month.

Definition _days_before_month (year month : Z) : Z :=
  index _DAYS_BEFORE_MONTH month + int_of_bool ((2 <? month) && _is_leap year).

Definition _ymd2ord (year month day : Z) : Z :=
  _days_before_year year + _days_before_month year month + day.

Definition _DI400Y : Z := _days_before_year 401.
Definition _DI100Y : Z := _days_before_year 101.
Definition _DI4Y : Z := _days_before_year 5.

Definition _ord2ymd (n : Z) : Z * Z * Z :=
  let n := n - 1 in
  let n400 := n / _DI400Y in
  let n := n mod _DI400Y in
  let year := n400 * 400 + 1 in
  let n100 := n / _DI100Y in
  let n := n mod _DI100Y in
  let n4 := n / _DI4Y in
  let n := n mod _DI4Y in
  let n1 := n / 365 in
  let n := n mod 365 in
  let year := year + (n100 * 100 + n4 * 4 + n1) in
  if (n1 =? 4) || (n100 =? 4) then (year - 1, 12, 31)
  else
    let leapyear := (n1 =? 3) && (negb (n4 =? 24) || (n100 =? 3)) in
    let month := Z.shiftr (n + 50) 5 in
    let preceding :=
      index _DAYS_BEFORE_MONTH month + int_of_bool ((2 <? month) && leapyear) in
    if n <? preceding then
      let month := month - 1 in
      let preceding :=
        preceding
        - (index _DAYS_IN_MONTH month + int_of_bool ((month =? 2) && leapyear)) in
      (year, month, n - preceding + 1)
    else (year, month, n - preceding + 1).

(** A [date]; the [datetime] values of the program all sit at midnight and
    are turned into dates before they are compared, so the time of day is
    left out. *)
Record date := mkdate { year : Z; month : Z; day : Z }.

(** [_check_date_fields], with the messages of the C implementation, which
    is the one [str(error)] shows. *)
Definition _check_date_fields (y m d : Z) : result (Z * Z * Z) :=
  if negb ((MINYEAR <=? y) && (y <=? MAXYEAR)) then
    Raise (ValueError (py "year " ++ str_of_int y ++ py " is out of range"))
  else if negb ((1 <=? m) && (m <=? 12)) then
    Raise (ValueError (py "month must be in 1..12"))
  else if negb ((1 <=? d) && (d <=? _days_in_month y m)) then
    Raise (ValueError (py "day is out of range for month"))
  else Ok (y, m, d).

(** [date(year, month, day)] *)
Definition date_new (y m d : Z) : result date :=
  bind (_check_date_fields y m d) (λ '(y, m, d), Ok (mkdate y m d)).

(** [d.replace(year=y)] *)
Definition replace_year (d : date) (y : Z) : result date :=
  date_new y (month d) (day d).

Definition toordinal (d : date) : Z := _ymd2ord (year d) (month d) (day d).

Definition fromordinal (n : Z) : result date :=
  let '(y, m, d) := _ord2ymd n in date_new y m d.

(** [date + timedelta(days=k)] *)
Definition date_add (d : date) (days : Z) : result date :=
  let o := toordinal d + days in
  if (0 <? o) && (o <=? _MAXORDINAL) then fromordinal o
  else Raise (OverflowError (py "date value out of range")).

(** [(self.toordinal() + 6) % 7]: Monday is 0, Sunday is 6. *)
Definition weekday (d : date) : Z := (toordinal d + 6) mod 7.

(** Tuples [(year, month, day)] compare in lexicographic order. *)
Definition tuple_eqb (x y : Z * Z * Z) : bool :=
  let '(a1, b1, c1) := x in
  let '(a2, b2, c2) := y in
  (a1 =? a2) && (b1 =? b2) && (c1 =? c2).

Definition tuple_gtb (x y : Z * Z * Z) : bool :=
  let '(a1, b1, c1) := x in
  let '(a2, b2, c2) := y in
  (a2 <? a1) || ((a1 =? a2) && ((b2 <? b1) || ((b1 =? b2) && (c2 <? c1)))).

Definition _cmp (x y : Z * Z * Z) : Z :=
  if tuple_eqb x y then 0 else if tuple_gtb x y then 1 else -1.

Definition date_cmp (a b : date) : Z :=
  _cmp (year a, month a, day a) (year b, month b, day b).

(** [a <= b] *)
Definition date_le (a b : date) : bool := date_cmp a b <=? 0.

Definition pad2 (n : Z) : pystr := [digit_char (n / 10); digit_char (n mod 10)].

(** [d.strftime("%d.%m.%Y")].  The C library writes the year as a plain
    decimal number: four digits from the year 1000 on. *)
Definition strftime (d : date) : pystr :=
  pad2 (day d) ++ py "." ++ pad2 (month d) ++ py "." ++ str_of_int (year d).

(** [_strptime(data_string, "%d.%m.%Y")]: match the pattern, refuse text
    left over, read the three groups as integers and have [date] check
    them.  The text of the two "does not match" messages quotes the data in
    [repr] form in Python; it is dropped here. *)
Definition _strptime (data_string : pystr) : result (Z * Z * Z) :=
  match Re.re_match Re.format_regex data_string with
  | None => Raise (ValueError (py "time data does not match format"))
  | Some found =>
      if negb (len data_string =? len (Re.consumed found)) then
        Raise (ValueError (py "unconverted data remains"))
      else
        bind (py_int (Re.group "Y" (Re.groups found))) (λ year,
        bind (py_int (Re.group "m" (Re.groups found))) (λ month,
        bind (py_int (Re.group "d" (Re.groups found))) (λ day,
        bind (date_new year month day) (λ _,
        Ok (year, month, day)))))
  end.

(** [datetime.strptime(s, "%d.%m.%Y")] *)
Definition strptime (data_string : pystr) : result date :=
  bind (_strptime data_string) (λ '(y, m, d), date_new y m d).

End Datetime.

(** ** Methods that change an object and may raise *)

Module Eff.
Import Py.

(** A method on an object of type [S]: from the state before the call to
    the outcome and the state after it.  The state after a raise is
    whatever the statements run so far have left. *)
Definition M (S A : Type) : Type := S → result A * S.

Definition ret {S A} (a : A) : M S A := λ s, (Ok a, s).
Definition raise {S A} (e : exn) : M S A := λ s, (Raise e, s).
Definition lift {S A} (r : result A) : M S A := λ s, (r, s).
Definition get {S} : M S S := λ s, (Ok s, s).
Definition put {S} (s : S) : M S unit := λ _, (Ok tt, s).

Definition bindM {S A B} (m : M S A) (k : A → M S B) : M S B :=
  λ s, match m s with
       | (Ok a, s') => k a s'
       | (Raise e, s') => (Raise e, s')
       end.

Declare Scope eff_scope.
Delimit Scope eff_scope with eff.
Notation "'let!' x ':=' m 'in' k" := (bindM m (λ x, k))
  (at level 10, x name, m at level 100, k at level 200) : eff_scope.
Notation "'do!' m 'in' k" := (bindM m (λ _, k))
  (at level 10, m at level 100, k at level 200) : eff_scope.

End Eff.

(** ** The program: [main.py]

    The classes, the handlers, [parse_command], [load_data] and
    [save_data], the console view and the loop of [main].  What [print]
    writes and the file of the book are kept in a [world]. *)

Module Main.
Import Py Datetime Eff.
Local Open Scope Z_scope.
Local Open Scope eff_scope.

(** [class Field]; [Name], [Phone] and [Birthday] add no attribute. *)
Record Field := mkField { value : pystr }.

Definition Name (v : pystr) : Field := mkField v.

(** The three [ValueError]s that the program words itself.  The
    specification calls them InvalidPhone, InvalidDateFormat and
    PhoneNotFound. *)
Definition InvalidPhone : exn :=
  ValueError (py "Phone number must be 10 digits.").
Definition InvalidDateFormat : exn :=
  ValueError (py "Invalid date format. Please use DD.MM.YYYY.").
Definition PhoneNotFound (old_phone : pystr) : exn :=
  ValueError (py "Phone number " ++ old_phone ++ py " not found.").

(** [Phone.__init__] *)
Definition Phone (v : pystr) : result Field :=
  if negb (isdigit v) || negb (len v =? 10) then Raise InvalidPhone
  else Ok (mkField v).

(** [Birthday.__init__] *)
Definition Birthday (v : pystr) : result Field :=
  bind (except_ValueError (strptime v) (Raise InvalidDateFormat))
       (λ _, Ok (mkField v)).

(** [class Record]; the name [Record] being taken, its objects are
    [RecordObj]. *)
Record RecordObj := mkRecord {
  name : Field;
  phones : list Field;
  birthday : option Field
}.

Definition with_phones (self : RecordObj) (ps : list Field) : RecordObj :=
  mkRecord (name self) ps (birthday self).
Definition with_birthday (self : RecordObj) (b : option Field) : RecordObj :=
  mkRecord (name self) (phones self) b.

(** [Record.__init__] *)
Definition Record_init (n : pystr) : RecordObj := mkRecord (Name n) [] None.

Definition set_birthday (b : pystr) : M RecordObj unit :=
  let! f := lift (Birthday b) in
  let! self := get in
  put (with_birthday self (Some f)).

Definition add_phone (phone_value : pystr) : M RecordObj unit :=
  let! phone := lift (Phone phone_value) in
  let! self := get in
  put (with_phones self (phones self ++ [phone])).

Definition delete_phone (phone_value : pystr) : M RecordObj unit :=
  let! self := get in
  put (with_phones self
         (filter (λ phone, value phone ≠ phone_value) (phones self))).

(** The loop of [update_phone] over [enumerate(self.phones)], from index
    [idx] on. *)
Fixpoint update_phone_loop (idx : nat) (todo : list Field)
    (old_phone new_phone : pystr) : M RecordObj bool :=
  match todo with
  | phone :: todo' =>
      if bool_decide (value phone = old_phone) then
        let! p := lift (Phone new_phone) in
        let! self := get in
        do! put (with_phones self (<[idx := p]> (phones self))) in
        ret true
      else update_phone_loop (S idx) todo' old_phone new_phone
  | [] => raise (PhoneNotFound old_phone)
  end.

Definition update_phone (old_phone new_phone : pystr) : M RecordObj bool :=
  let! self := get in
  update_phone_loop 0 (phones self) old_phone new_phone.

(** A [dict] with [str] keys: the items in insertion order, one per key. *)
Definition dict (V : Type) : Type := list (pystr * V).

Fixpoint dict_get {V} (k : pystr) (d : dict V) : option V :=
  match d with
  | (k', v) :: d' => if bool_decide (k' = k) then Some v else dict_get k d'
  | [] => None
  end.

(** [d[k] = v]: a key already there keeps its place. *)
Fixpoint dict_set {V} (k : pystr) (v : V) (d : dict V) : dict V :=
  match d with
  | (k', v') :: d' =>
      if bool_decide (k' = k) then (k', v) :: d'
      else (k', v') :: dict_set k v d'
  | [] => [(k, v)]
  end.

(** [d.pop(k, None)] *)
Fixpoint dict_pop {V} (k : pystr) (d : dict V) : option V * dict V :=
  match d with
  | (k', v') :: d' =>
      if bool_decide (k' = k) then (Some v', d')
      else let '(found, d'') := dict_pop k d' in (found, (k', v') :: d'')
  | [] => (None, [])
  end.

Definition keys {V} (d : dict V) : list pystr := map fst d.
Definition values {V} (d : dict V) : list V := map snd d.

(** [class AddressBook(UserDict)]: the state is the dictionary [data]. *)
Definition AddressBook : Type := dict RecordObj.

Definition add_record (record : RecordObj) : M AddressBook unit :=
  let! data := get in
  put (dict_set (value (name record)) record data).

Definition search (n : pystr) : M AddressBook (option RecordObj) :=
  let! data := get in
  ret (dict_get n data).

Definition remove_record (n : pystr) : M AddressBook (option RecordObj) :=
  let! data := get in
  let '(found, data') := dict_pop n data in
  do! put data' in
  ret found.

(** A record of the book is an object shared between the dictionary and
    the handler that looked it up: what a method does to it is seen
    through the dictionary.  No object sits under two keys, so running the
    method on the value stored under [key] and storing the outcome under
    the same key says the same.  The handlers call a method only on a record
    that [search] has found; on [None] the call is an [AttributeError]. *)
Definition on_record {A} (key : pystr) (method : M RecordObj A)
    : M AddressBook A :=
  λ data,
    match dict_get key data with
    | Some record =>
        let '(out, record') := method record in (out, dict_set key record' data)
    | None =>
        (Raise (AttributeError (py "'NoneType' object has no attribute")), data)
    end.

(** An entry of the list that [upcoming_birthdays] returns. *)
Record item := mkItem { item_name : pystr; item_birthday : pystr }.

(** The body of the loop of [upcoming_birthdays] for one record, [res]
    being the list built so far. *)
Definition upcoming_birthdays_step (today : date) (record : RecordObj)
    (res : list item) : result (list item) :=
  match birthday record with
  | Some b =>
      bind (strptime (value b)) (λ parsed,
      bind (replace_year parsed (year today)) (λ birthday_this_year,
      bind (if date_le today birthday_this_year then
              bind (date_add today 7) (λ limit,
              Ok (date_le birthday_this_year limit))
            else Ok false) (λ in_window,
      if in_window then
        bind (if 5 <=? weekday birthday_this_year then
                date_add birthday_this_year (7 - weekday birthday_this_year)
              else Ok birthday_this_year) (λ birthday_this_year,
        Ok (res ++ [mkItem (value (name record)) (strftime birthday_this_year)]))
      else Ok res)))
  | None => Ok res
  end.

Fixpoint upcoming_birthdays_loop (today : date) (records : list RecordObj)
    (res : list item) : result (list item) :=
  match records with
  | record :: records' =>
      bind (upcoming_birthdays_step today record res)
           (upcoming_birthdays_loop today records')
  | [] => Ok res
  end.

(** [AddressBook.upcoming_birthdays]; [today] stands for
    [datetime.now().date()]. *)
Definition upcoming_birthdays (today : date) (self : AddressBook)
    : result (list item) :=
  upcoming_birthdays_loop today (values self) [].

(** [input_error]: an [IndexError] or [ValueError] of the handler becomes
    its reply; any other exception goes through. *)
Definition input_error {S} (handler : M S pystr) : M S pystr :=
  λ s, match handler s with
       | (Raise (IndexError msg), s') => (Ok (py "Error: " ++ msg), s')
       | (Raise (ValueError msg), s') => (Ok (py "Error: " ++ msg), s')
       | other => other
       end.

(** [a, b = l] *)
Definition unpack2 (l : list pystr) : result (pystr * pystr) :=
  match l with
  | [a; b] => Ok (a, b)
  | _ :: _ :: _ :: _ =>
      Raise (ValueError (py "too many values to unpack (expected 2)"))
  | _ => Raise (ValueError (py "not enough values to unpack (expected 2, got "
                            ++ str_of_int (len l) ++ py ")"))
  end.

(** [a, b, c = l] *)
Definition unpack3 (l : list pystr) : result (pystr * pystr * pystr) :=
  match l with
  | [a; b; c] => Ok (a, b, c)
  | _ :: _ :: _ :: _ :: _ =>
      Raise (ValueError (py "too many values to unpack (expected 3)"))
  | _ => Raise (ValueError (py "not enough values to unpack (expected 3, got "
                            ++ str_of_int (len l) ++ py ")"))
  end.

Definition add_contact (args : list pystr) : M AddressBook pystr :=
  input_error (
    let! np := lift (unpack2 (take 2 args)) in
    let '(n, phone) := np in
    let! record := search n in
    match record with
    | Some _ =>
        do! on_record n (add_phone phone) in
        ret (py "Phone added to " ++ n ++ py ".")
    | None =>
        let '(out, record) := add_phone phone (Record_init n) in
        do! lift out in
        do! add_record record in
        ret (py "Contact " ++ n ++ py " created.")
    end).

Definition change_phone (args : list pystr) : M AddressBook pystr :=
  input_error (
    let! noo := lift (unpack3 args) in
    let '(n, old_phone, new_phone) := noo in
    let! record := search n in
    match record with
    | Some _ =>
        let! updated := on_record n (update_phone old_phone new_phone) in
        if (updated : bool) then ret (py "Phone number updated for " ++ n ++ py ".")
        else ret (py "Contact or phone not found.")
    | None => ret (py "Contact or phone not found.")
    end).

Definition add_birthday (args : list pystr) : M AddressBook pystr :=
  input_error (
    let! nb := lift (unpack2 args) in
    let '(n, b) := nb in
    let! record := search n in
    match record with
    | Some _ =>
        do! on_record n (set_birthday b) in
        ret (py "Birthday set for " ++ n ++ py ".")
    | None => ret (py "Contact not found.")
    end).

Definition birthdays (today : date) : M AddressBook pystr :=
  input_error (
    let! book := get in
    let! upcoming := lift (upcoming_birthdays today book) in
    match upcoming with
    | [] => ret (py "No upcoming birthdays.")
    | _ =>
        ret (join (py (String "010" EmptyString))
               (map (λ it, item_name it ++ py ": " ++ item_birthday it) upcoming))
    end).

(** What [load_data] can find under the file name: nothing, a file that
    cannot be opened, bytes that [pickle.load] refuses with [e], or the
    pickle of a book. *)
Inductive store :=
| Absent
| Unreadable
| Corrupt (e : exn)
| Saved (book : AddressBook).

(** [open(filename, "rb")]; the answer stands for the open file. *)
Definition open_rb (st : store) : result store :=
  match st with
  | Absent => Raise FileNotFoundError
  | Unreadable => Raise PermissionError
  | _ => Ok st
  end.

Definition pickle_load (f : store) : result AddressBook :=
  match f with
  | Saved book => Ok book
  | Corrupt e => Raise e
  | _ => Raise EOFError
  end.

(** [load_data]: only [FileNotFoundError] is handled. *)
Definition load_data (st : store) : result AddressBook :=
  match bind (open_rb st) pickle_load with
  | Raise FileNotFoundError => Ok []
  | other => other
  end.

(** [pickle.dump] writes the book for a later [pickle.load]. *)
Definition save_data (book : AddressBook) : store := Saved book.

(** [Field.__str__] *)
Definition Field_str (f : Field) : pystr := value f.

(** [Record.__str__] *)
Definition Record_str (self : RecordObj) : pystr :=
  let phones_text := join (py ", ") (map value (phones self)) in
  let birthday_str :=
    match birthday self with
    | Some b => py ", birthday: " ++ Field_str b
    | None => []
    end in
  py "Name: " ++ value (name self) ++ py ", phones: " ++ phones_text
  ++ birthday_str.

Definition newline : pystr := [10%N].

(** [AddressBook.__str__] *)
Definition AddressBook_str (self : AddressBook) : pystr :=
  join newline (map Record_str (values self)).

(** [l[0]] *)
Definition first_arg (l : list pystr) : result pystr :=
  match l with
  | a :: _ => Ok a
  | [] => Raise (IndexError (py "list index out of range"))
  end.

Definition show_phones (args : list pystr) : M AddressBook pystr :=
  input_error (
    let! n := lift (first_arg args) in
    let! record := search n in
    match record with
    | Some record =>
        ret (n ++ py ": " ++ join (py ", ") (map value (phones record)))
    | None => ret (py "Contact not found.")
    end).

Definition display_all : M AddressBook pystr :=
  input_error (
    let! book := get in
    match book with
    | [] => ret (py "Address book is empty.")
    | _ => ret (AddressBook_str book)
    end).

Definition show_birthday (args : list pystr) : M AddressBook pystr :=
  input_error (
    let! n := lift (first_arg args) in
    let! record := search n in
    match record with
    | Some record =>
        match birthday record with
        | Some b => ret (n ++ py "'s birthday: " ++ value b)
        | None => ret (py "Birthday not set.")
        end
    | None => ret (py "Contact not found.")
    end).

(** [parse_command]: the first word and the other words of the line; a
    line without a word has no [parts[0]]. *)
Definition parse_command (input_str : pystr) : result (pystr * list pystr) :=
  match split input_str with
  | command :: args => Ok (command, args)
  | [] => Raise (IndexError (py "list index out of range"))
  end.

(** What the program acts on besides the book: the file of [save_data] and
    [load_data], and what [print] has written, one entry per call. *)
Record world := mkWorld { disk : store; console : list pystr }.

Definition print (text : pystr) (w : world) : world :=
  mkWorld (disk w) (console w ++ [text]).

(** [ConsoleView] *)
Definition show_message (message : pystr) (w : world) : world :=
  print message w.

Definition show_all_contacts (contacts : AddressBook) (w : world) : world :=
  match contacts with
  | [] => print (py "Address book is empty.") w
  | _ =>
      fold_left (λ w contact, print (Record_str contact) w) (values contacts)
        (print (newline ++ py "Address Book:") w)
  end.

Definition show_commands (w : world) : world :=
  fold_left (λ w text, print text w)
    [ newline ++ py "Available commands:";
      py "add <name> <phone> - Add a new contact";
      py "change <name> <old_phone> <new_phone> - Change contact's phone";
      py "phone <name> - Show contact's phones";
      py "all - Show all contacts";
      py "add-birthday <name> <birthday> - Add a birthday to the contact";
      py "show-birthday <name> - Show contact's birthday";
      py "birthdays - Show upcoming birthdays";
      py "exit/close - Exit the bot" ]
    w.

(** A handler called from the loop of [main]: its reply is shown and the
    loop goes on with the book as the handler left it; an exception that
    [input_error] lets through leaves the loop. *)
Definition reply_of (handler : M AddressBook pystr) (book : AddressBook)
    (w : world) : result AddressBook * world :=
  match handler book with
  | (Ok message, book') => (Ok book', show_message message w)
  | (Raise e, _) => (Raise e, w)
  end.

(** One turn of the loop of [main] for a command other than [exit] and
    [close]; [today] is the day on which the command is given. *)
Definition run_command (today : date) (command : pystr) (args : list pystr)
    (book : AddressBook) (w : world) : result AddressBook * world :=
  if bool_decide (command = py "hello") then
    (Ok book, show_message (py "How can I assist you today?") w)
  else if bool_decide (command = py "add") then
    reply_of (add_contact args) book w
  else if bool_decide (command = py "change") then
    reply_of (change_phone args) book w
  else if bool_decide (command = py "phone") then
    reply_of (show_phones args) book w
  else if bool_decide (command = py "all") then
    (Ok book, show_all_contacts book w)
  else if bool_decide (command = py "add-birthday") then
    reply_of (add_birthday args) book w
  else if bool_decide (command = py "show-birthday") then
    reply_of (show_birthday args) book w
  else if bool_decide (command = py "birthdays") then
    reply_of (birthdays today) book w
  else if bool_decide (command = py "help") then
    (Ok book, show_commands w)
  else
    (Ok book, show_message (py "Unknown command. Please try again.") w).

(** The loop of [main].  [inputs] holds the lines that [input] will read,
    each with the day on which it is read; when they run out, [input]
    raises [EOFError].  The prompt of [input] is not kept in [console]. *)
Fixpoint main_loop (inputs : list (date * pystr)) (book : AddressBook)
    (w : world) : result unit * world :=
  match inputs with
  | (today, user_input) :: inputs' =>
      match parse_command user_input with
      | Ok (command, args) =>
          if bool_decide (command = py "exit")
             || bool_decide (command = py "close") then
            (Ok tt,
             show_message (py "Goodbye!") (mkWorld (save_data book) (console w)))
          else
            match run_command today command args book w with
            | (Ok book', w') => main_loop inputs' book' w'
            | (Raise e, w') => (Raise e, w')
            end
      | Raise e => (Raise e, w)
      end
  | [] => (Raise EOFError, w)
  end.

(** The greeting of [main]; the word help stands between double quotes. *)
Definition welcome : pystr :=
  py "Welcome to the AddressBook Assistant! Type "
  ++ [34%N] ++ py "help" ++ [34%N] ++ py " for a list of commands.".

(** [main], started on the file [st]. *)
Definition main (st : store) (inputs : list (date * pystr))
    : result unit * world :=
  match load_data st with
  | Ok book => main_loop inputs book (show_message welcome (mkWorld st []))
  | Raise e => (Raise e, mkWorld st [])
  end.

End Main.

(** * The words of the statements

    What the theorems below speak of: the shapes of texts, the dates of the
    calendar, the state of a valid book, the window of upcoming birthdays,
    and the books of the examples. *)

Section TextVocabulary.
Import Py Re Main.
Local Open Scope N_scope.

(** The ASCII decimal digits, ['0'] to ['9']. *)
Definition ascii_digit (c : char) : Prop := (48 <= c <= 57)%N.

(** Ten characters, each a digit for [str.isdigit]. *)
Definition ten_digits (s : pystr) : Prop :=
  length s = 10%nat ∧ Forall (λ c, isdigit_char c = true) s.

(** Ten Arabic-Indic digits, U+0660 to U+0669. *)
Definition arabic_indic_digits : pystr :=
  [1632; 1633; 1634; 1635; 1636; 1637; 1638; 1639; 1640; 1641]%N.

Definition dot : pystr := [46].

(** The texts that the directives [%d], [%m] and [%Y] take.  A day is a
    digit 1 to 9 alone, after a zero or after a space, or a 3 and then 0 or
    1, or a 1 or 2 and then any decimal digit; a month is a digit 1 to 9
    alone or after a zero, or a 1 and then 0, 1 or 2; a year is four decimal
    digits. *)
Definition day_shape (D : pystr) : Prop :=
  (∃ c, (49 <= c <= 57)%N ∧ (D = [c] ∨ D = [48%N; c] ∨ D = [32%N; c]))
  ∨ (∃ c1 c2, D = [c1; c2]
       ∧ ((c1 = 51%N ∧ (48 <= c2 <= 49)%N)
          ∨ ((49 <= c1 <= 50)%N ∧ isdecimal_char c2 = true))).

Definition month_shape (M : pystr) : Prop :=
  (∃ c, (49 <= c <= 57)%N ∧ (M = [c] ∨ M = [48%N; c]))
  ∨ (∃ c, M = [49%N; c] ∧ (48 <= c <= 50)%N).

Definition year_shape (Y : pystr) : Prop :=
  length Y = 4%nat ∧ Forall (λ c, isdecimal_char c = true) Y.

(** What it is for [r] to match a prefix of [s], said without the search
    order. *)
Inductive matches : regex → pystr → attempt → Prop :=
| matches_chr c s : matches (Chr c) (c :: s) (mkAttempt [c] s [])
| matches_rng lo hi c s :
    (lo <= c <= hi)%N → matches (Rng lo hi) (c :: s) (mkAttempt [c] s [])
| matches_digit c s :
    isdecimal_char c = true → matches DigitClass (c :: s) (mkAttempt [c] s [])
| matches_seq r1 r2 s a1 a2 :
    matches r1 s a1 → matches r2 (rest a1) a2 →
    matches (Seq r1 r2) s
      (mkAttempt (consumed a1 ++ consumed a2) (rest a2) (groups a1 ++ groups a2))
| matches_alt_l r1 r2 s a : matches r1 s a → matches (Alt r1 r2) s a
| matches_alt_r r1 r2 s a : matches r2 s a → matches (Alt r1 r2) s a
| matches_group name r s a :
    matches r s a →
    matches (Group name r) s
      (mkAttempt (consumed a) (rest a) ((name, consumed a) :: groups a)).

(** No range of [t1] meets a range of [t2]. *)
Definition ranges_disjoint (t1 t2 : list (N * N)) : bool :=
  forallb (λ r1,
    forallb (λ r2, (snd r1 <? fst r2)%N || (snd r2 <? fst r1)%N) t2) t1.

(** The number of items stored under a key. *)
Definition entries_for {V : Type} (k : pystr) (d : list (pystr * V)) : nat :=
  length (filter (λ kv, kv.1 = k) d).

End TextVocabulary.

Section DateVocabulary.
Import Py Eff Datetime Main.
Local Open Scope Z_scope.

(** The dates of the calendar that [date] holds: years 1 to 9999, months 1
    to 12, days 1 to the length of the month in that year. *)
Definition valid_ymd (y m d : Z) : Prop :=
  MINYEAR <= y <= MAXYEAR ∧ 1 <= m <= 12 ∧ 1 <= d <= _days_in_month y m.

Definition valid_date (d : date) : Prop :=
  valid_ymd (year d) (month d) (day d).

(** The order of the tuples [(year, month, day)]. *)
Definition lex_lt (a b : date) : Prop :=
  year a < year b
  ∨ (year a = year b
     ∧ (month a < month b ∨ (month a = month b ∧ day a < day b))).

(** The tables with the leap flag as a parameter. *)
Definition dim_b (leap : bool) (m : Z) : Z :=
  if (m =? 2) && leap then 29 else index _DAYS_IN_MONTH m.

Definition dbm_b (leap : bool) (m : Z) : Z :=
  index _DAYS_BEFORE_MONTH m + int_of_bool ((2 <? m) && leap).

(** The last steps of [_ord2ymd]: from the day of the year to the month and
    the day of the month. *)
Definition month_day (leapyear : bool) (n : Z) : Z * Z :=
  let month := Z.shiftr (n + 50) 5 in
  let preceding :=
    index _DAYS_BEFORE_MONTH month + int_of_bool ((2 <? month) && leapyear) in
  if n <? preceding then
    let month := month - 1 in
    let preceding :=
      preceding
      - (index _DAYS_IN_MONTH month + int_of_bool ((month =? 2) && leapyear)) in
    (month, n - preceding + 1)
  else (month, n - preceding + 1).

(** [month_day] answers a month and a day of that month, the one [n] days
    after 1 January. *)
Definition month_day_ok (leap : bool) (n : Z) : bool :=
  let '(m, d) := month_day leap n in
  (1 <=? m) && (m <=? 12) && (1 <=? d) && (d <=? dim_b leap m)
  && (dbm_b leap m + d =? n + 1).

(** The year on four digits. *)
Definition pad4 (y : Z) : pystr :=
  [digit_char (y / 1000); digit_char (y / 100 mod 10);
   digit_char (y / 10 mod 10); digit_char (y mod 10)].

(** A date written DD.MM.YYYY. *)
Definition DD_MM_YYYY (y m d : Z) : pystr :=
  pad2 d ++ dot ++ pad2 m ++ dot ++ pad4 y.

(** A book is valid when every phone it stores is made of ten digit
    characters and every birthday it stores is a text that [strptime] reads
    as a date of the calendar. *)
Definition phone_ok (f : Field) : Prop := ten_digits (value f).

Definition birthday_ok (f : Field) : Prop :=
  ∃ x, strptime (value f) = Ok x ∧ valid_date x.

Definition record_ok (r : RecordObj) : Prop :=
  Forall phone_ok (phones r) ∧ ∀ b, birthday r = Some b → birthday_ok b.

Definition book_ok (book : AddressBook) : Prop :=
  Forall record_ok (values book).

(** The calls that change a record, and those that change the book: a call
    on the record stored under a name, the adding of a record that was
    built from [Record(name)] by such calls, and the removal of a name. *)
Inductive record_op :=
| OpAddPhone (phone_value : pystr)
| OpUpdatePhone (old_phone new_phone : pystr)
| OpDeletePhone (phone_value : pystr)
| OpSetBirthday (b : pystr).

Definition run_record_op (o : record_op) (self : RecordObj) : RecordObj :=
  match o with
  | OpAddPhone p => (add_phone p self).2
  | OpUpdatePhone old_phone new_phone => (update_phone old_phone new_phone self).2
  | OpDeletePhone p => (delete_phone p self).2
  | OpSetBirthday b => (set_birthday b self).2
  end.

Definition build_record (n : pystr) (script : list record_op) : RecordObj :=
  fold_left (λ r o, run_record_op o r) script (Record_init n).

Inductive book_op :=
| OnRecord (n : pystr) (o : record_op)
| OpAddRecord (n : pystr) (script : list record_op)
| OpRemoveRecord (n : pystr).

Definition run_book_op (o : book_op) (book : AddressBook) : AddressBook :=
  match o with
  | OnRecord n (OpAddPhone p) => (on_record n (add_phone p) book).2
  | OnRecord n (OpUpdatePhone old_phone new_phone) =>
      (on_record n (update_phone old_phone new_phone) book).2
  | OnRecord n (OpDeletePhone p) => (on_record n (delete_phone p) book).2
  | OnRecord n (OpSetBirthday b) => (on_record n (set_birthday b) book).2
  | OpAddRecord n script => (add_record (build_record n script) book).2
  | OpRemoveRecord n => (remove_record n book).2
  end.

(** A birthday moved to the year of [today]. *)
Definition anchored (today x : date) : date :=
  mkdate (year today) (month x) (day x).

(** From [today] to seven days later, both included, counted in days. *)
Definition in_window (today a : date) : Prop :=
  toordinal today <= toordinal a <= toordinal today + 7.

(** The date reported for the anchored date [a]: the Monday after it when
    it falls on a Saturday or a Sunday, else [a] itself. *)
Definition shifted (a r : date) : Prop :=
  valid_date r
  ∧ (5 <= weekday a → toordinal r = toordinal a + (7 - weekday a) ∧ weekday r = 0)
  ∧ (weekday a < 5 → r = a).

(** The error of [replace] on a day that the month does not have. *)
Definition day_out_of_range : exn :=
  ValueError (py "day is out of range for month").

(** The entries that a record adds to the list: none, or one. *)
Inductive entry_of (today : date) (record : RecordObj) : list item → Prop :=
| entry_no_birthday :
    birthday record = None → entry_of today record []
| entry_outside b x :
    birthday record = Some b → strptime (value b) = Ok x →
    valid_date (anchored today x) → ¬ in_window today (anchored today x) →
    entry_of today record []
| entry_inside b x r :
    birthday record = Some b → strptime (value b) = Ok x →
    valid_date (anchored today x) → in_window today (anchored today x) →
    shifted (anchored today x) r →
    entry_of today record [mkItem (value (name record)) (strftime r)].


(** The names of the records of the book, in the order of the book. *)
Definition names (book : AddressBook) : list pystr :=
  map (λ r, value (name r)) (values book).

(** Every record sits under its own name, and no key comes twice. *)
Definition keyed_by_name (book : AddressBook) : Prop :=
  NoDup (keys book) ∧ Forall (λ kv, value (name kv.2) = kv.1) book.

(** The books, records and days of the examples. *)
Definition bob_one_phone : RecordObj :=
  mkRecord (Name (py "Bob")) [mkField (py "1234567890")] None.

Definition book_of_bob : AddressBook := [(py "Bob", bob_one_phone)].

Definition bob_no_phone : RecordObj := mkRecord (Name (py "Bob")) [] None.

Definition saturday_18_may_2024 : date := mkdate 2024 5 18.
Definition saturday_11_may_2024 : date := mkdate 2024 5 11.
Definition saturday_25_february_2023 : date := mkdate 2023 2 25.

(** Bob, born on 20 May, seen on Saturday 18 May 2024. *)
Definition bob_20_may : RecordObj :=
  mkRecord (Name (py "Bob")) [mkField (py "1234567890")]
           (Some (mkField (py "20.05.2024"))).

(** Bob, born on 18 May, seen on Saturday 11 May 2024: the 18th is a
    Saturday, the last day of the window, and Monday the 20th is reported,
    nine days after [today]. *)
Definition bob_18_may : RecordObj :=
  mkRecord (Name (py "Bob")) [mkField (py "1234567890")]
           (Some (mkField (py "18.05.2000"))).

(** Al, born on 29 February 2024. *)
Definition al_29_february : RecordObj :=
  mkRecord (Name (py "Al")) [mkField (py "1234567890")]
           (Some (mkField (py "29.02.2024"))).

Definition book_of_bob_and_al : AddressBook :=
  [(py "Bob", bob_20_may); (py "Al", al_29_february)].

(** A word of a command line: not empty and without white space. *)
Definition word (t : pystr) : Prop :=
  t ≠ [] ∧ Forall (λ c, isspace_char c = false) t.

(** A line with no word: empty, or white space only. *)
Definition blank (t : pystr) : Prop := Forall (λ c, isspace_char c = true) t.

(** The commands whose handlers write to the book. *)
Definition writing_command (command : pystr) : Prop :=
  command = py "add" ∨ command = py "change" ∨ command = py "add-birthday".

(** A file that the program can start from and that holds good data: no
    file yet, or a saved book that is valid and holds each record under its
    name. *)
Definition store_ok (st : store) : Prop :=
  match st with
  | Absent => True
  | Saved book => book_ok book ∧ keyed_by_name book
  | _ => False
  end.

(** Bob with two equal phones around another one. *)
Definition bob_three_phones : RecordObj :=
  mkRecord (Name (py "Bob"))
    [mkField (py "1111111111"); mkField (py "2222222222");
     mkField (py "1111111111")] None.

Definition book_of_bob_20_may : AddressBook := [(py "Bob", bob_20_may)].

End DateVocabulary.

Section CommandVocabulary.
Import Py Eff Datetime Main.
Local Open Scope Z_scope.

(** The calls on the book that the handlers make: on a record, all but
    [delete_phone]; [add_record] under a name that the book does not hold;
    never [remove_record]. *)
Definition growing (book : AddressBook) (o : book_op) : Prop :=
  match o with
  | OnRecord _ (OpDeletePhone _) => False
  | OnRecord _ _ => True
  | OpAddRecord n _ => dict_get n book = None
  | OpRemoveRecord _ => False
  end.

(** A handler that answers, having done nothing to the book or one of these
    calls on it. *)
Definition answers (handler : M AddressBook pystr) (book : AddressBook) : Prop :=
  ∃ reply book', handler book = (Ok reply, book')
    ∧ (book' = book ∨ ∃ o, growing book o ∧ book' = run_book_op o book).

(** Nothing of [book] is missing in [book']: the names of [book] come
    first and in their order, and the record under each of them has kept
    its name, has as many phones or more, and has a birthday if it had
    one. *)
Definition kept (book book' : AddressBook) : Prop :=
  keys book `prefix_of` keys book'
  ∧ ∀ n record, dict_get n book = Some record →
      ∃ record', dict_get n book' = Some record'
                 ∧ name record' = name record
                 ∧ (length (phones record) <= length (phones record'))%nat
                 ∧ (is_Some (birthday record) → is_Some (birthday record')).

(** A day on which [birthdays] can be asked without an [OverflowError]: a
    day of the calendar, a week or more before its last day. *)
Definition before_last_week (today : date) : Prop :=
  valid_date today ∧ toordinal today + 7 <= _MAXORDINAL.

(** The commands that end the loop of [main]. *)
Definition exit_command (command : pystr) : Prop :=
  command = py "exit" ∨ command = py "close".


(** A file that [load_data] reads. *)
Definition loadable (st : store) : Prop :=
  st = Absent ∨ ∃ book, st = Saved book.

(** The words that follow the command on a line, each after its gap of
    white space, written out. *)
Definition gapped (rest : list (pystr * pystr)) : pystr :=
  concat (map (λ gw, gw.1 ++ gw.2) rest).

(** Each gap is white space, one character or more, of any kind, and each
    word is a word. *)
Definition gaps_and_words (rest : list (pystr * pystr)) : Prop :=
  Forall (λ gw, blank gw.1 ∧ gw.1 ≠ [] ∧ word gw.2) rest.




End CommandVocabulary.

(** * Properties *)

(** ** Strings and digits *)

Section Digits.
Import Py.

Lemma in_ranges_spec table c :
  in_ranges table c = true ↔ ∃ lo hi, In (lo, hi) table ∧ (lo <= c <= hi)%N.
Proof.
  unfold in_ranges. rewrite existsb_exists. split.
  - intros [[lo hi] [Hin Hc]]. apply andb_true_iff in Hc as [H1 H2].
    apply N.leb_le in H1, H2. exists lo, hi. simpl in *. auto.
  - intros (lo & hi & Hin & H1 & H2). exists (lo, hi). split; [done|].
    simpl. apply andb_true_iff. split; apply N.leb_le; done.
Qed.

(** Below 128 the digits of [str.isdigit] are the ten ASCII ones. *)
Lemma isdigit_char_ascii c :
  (c < 128)%N → isdigit_char c = true ↔ ascii_digit c.
Proof.
  intros Hc. unfold isdigit_char, isdecimal_char, ascii_digit.
  rewrite orb_true_iff, !in_ranges_spec. split.
  - intros [(lo & hi & Hin & H)|(lo & hi & Hin & H)];
      simpl in Hin;
      repeat (destruct Hin as [Heq|Hin]; [injection Heq as <- <-; lia|]);
      destruct Hin.
  - intros H. left. exists 48%N, 57%N. split; [simpl; auto|done].
Qed.

Lemma isdecimal_char_ascii c :
  (c < 128)%N → isdecimal_char c = true ↔ ascii_digit c.
Proof.
  intros Hc. unfold isdecimal_char, ascii_digit.
  rewrite in_ranges_spec. split.
  - intros (lo & hi & Hin & H); simpl in Hin;
      repeat (destruct Hin as [Heq|Hin]; [injection Heq as <- <-; lia|]);
      destruct Hin.
  - intros H. exists 48%N, 57%N. split; [simpl; auto|done].
Qed.

Lemma isdigit_spec s :
  isdigit s = true ↔ s ≠ [] ∧ Forall (λ c, isdigit_char c = true) s.
Proof.
  destruct s as [|c s].
  - simpl. split; [discriminate|]. intros [H _]. done.
  - unfold isdigit. rewrite forallb_forall, Forall_forall.
    split; [intros H; split; [discriminate|exact H]|intros [_ H]; exact H].
Qed.

Lemma len_length {A} (s : list A) (n : nat) : len s = Z.of_nat n ↔ length s = n.
Proof. unfold len. lia. Qed.

End Digits.

(** ** Dictionaries *)

Section Dict.
Import Py Main.
Context {V : Type}.
Implicit Types (d : dict V) (k : pystr) (v : V).

Lemma dict_get_set_eq k v d : dict_get k (dict_set k v d) = Some v.
Proof.
  induction d as [|[k' v'] d IH]; simpl.
  - by rewrite bool_decide_eq_true_2.
  - case_bool_decide as Hk; simpl.
    + by rewrite bool_decide_eq_true_2.
    + by rewrite bool_decide_eq_false_2.
Qed.

Lemma dict_get_set_ne k k' v d :
  k' ≠ k → dict_get k' (dict_set k v d) = dict_get k' d.
Proof.
  intros Hne. induction d as [|[k0 v0] d IH]; simpl.
  - by rewrite bool_decide_eq_false_2.
  - case_bool_decide as Hk; simpl.
    + subst k0. by rewrite !bool_decide_eq_false_2.
    + by rewrite IH.
Qed.

Lemma dict_get_Some_keys k v d : dict_get k d = Some v → k ∈ keys d.
Proof.
  induction d as [|[k0 v0] d IH]; simpl; [done|].
  case_bool_decide as Hk.
  - subst. intros _. apply list_elem_of_here.
  - intros H. apply list_elem_of_further. auto.
Qed.

Lemma dict_get_None_keys k d : dict_get k d = None ↔ k ∉ keys d.
Proof.
  induction d as [|[k0 v0] d IH]; simpl.
  - split; [intros _; apply not_elem_of_nil|done].
  - rewrite not_elem_of_cons. case_bool_decide as Hk.
    + subst. split; [done|]. intros [H _]. done.
    + rewrite IH. split; [intros H; split; [congruence|done]|by intros [_ H]].
Qed.

(** Writing under a key that is present changes no key and no position. *)
Lemma keys_dict_set_present k v d :
  k ∈ keys d → keys (dict_set k v d) = keys d.
Proof.
  induction d as [|[k0 v0] d IH]; simpl.
  - intros H. by apply not_elem_of_nil in H.
  - intros H. case_bool_decide as Hk; simpl; [done|].
    f_equal. apply IH. apply elem_of_cons in H as [H|H]; [congruence|done].
Qed.

Lemma keys_dict_set_absent k v d :
  k ∉ keys d → keys (dict_set k v d) = keys d ++ [k].
Proof.
  induction d as [|[k0 v0] d IH]; simpl; [done|].
  rewrite not_elem_of_cons. intros [Hne H].
  rewrite bool_decide_eq_false_2 by congruence. simpl. f_equal. auto.
Qed.

Lemma keys_dict_set_NoDup k v d : NoDup (keys d) → NoDup (keys (dict_set k v d)).
Proof.
  intros Hnd. destruct (decide (k ∈ keys d)) as [Hin|Hout].
  - by rewrite keys_dict_set_present.
  - rewrite keys_dict_set_absent by done.
    apply list.NoDup_app. split; [done|]. split; [|apply NoDup_singleton].
    intros x Hx Hx'. apply list_elem_of_singleton in Hx'. by subst.
Qed.

Lemma entries_for_absent k d : k ∉ keys d → entries_for k d = 0%nat.
Proof.
  unfold entries_for, keys. induction d as [|[k0 v0] d IH]; [done|].
  cbn [map fst]. rewrite not_elem_of_cons. intros [Hne H].
  rewrite filter_cons_False by (simpl; congruence). auto.
Qed.

Lemma entries_for_NoDup k d :
  NoDup (keys d) → k ∈ keys d → entries_for k d = 1%nat.
Proof.
  induction d as [|[k0 v0] d IH]; cbn [keys map fst].
  - intros _ H. by apply not_elem_of_nil in H.
  - intros Hnd Hin. apply list.NoDup_cons in Hnd as [Hk0 Hnd].
    unfold entries_for in *. destruct (decide (k0 = k)) as [->|Hne].
    + rewrite filter_cons_True by done. cbn [length]. f_equal.
      by apply entries_for_absent.
    + rewrite filter_cons_False by done.
      apply elem_of_cons in Hin as [Hin|Hin]; [congruence|auto].
Qed.

Lemma keys_dict_set_elem k v d : k ∈ keys (dict_set k v d).
Proof. eapply dict_get_Some_keys, dict_get_set_eq. Qed.

Lemma dict_pop_get k d : (dict_pop k d).1 = dict_get k d.
Proof.
  induction d as [|[k0 v0] d IH]; simpl; [done|].
  case_bool_decide; [done|]. destruct (dict_pop k d). done.
Qed.

Lemma dict_pop_sublist k d : sublist (dict_pop k d).2 d.
Proof.
  induction d as [|[k0 v0] d IH]; simpl; [done|].
  case_bool_decide.
  - simpl. by apply sublist_cons.
  - destruct (dict_pop k d). simpl in *. by apply sublist_skip.
Qed.

Lemma values_dict_set_elem k v d x :
  x ∈ values (dict_set k v d) → x = v ∨ x ∈ values d.
Proof.
  unfold values. induction d as [|[k0 v0] d IH]; simpl.
  - intros H. apply list_elem_of_singleton in H. auto.
  - case_bool_decide; simpl; rewrite !elem_of_cons.
    + tauto.
    + intros [->|H']; [tauto|]. destruct (IH H'); tauto.
Qed.

End Dict.

(** ** Fields and records *)

Section Records.
Import Py Eff Main.
Implicit Types (self : RecordObj) (s : pystr).

Lemma Phone_Ok_iff s : Phone s = Ok (mkField s) ↔ ten_digits s.
Proof.
  unfold Phone, ten_digits.
  destruct (isdigit s) eqn:Hd; simpl.
  - apply isdigit_spec in Hd as [_ Hall].
    destruct (Z.eqb_spec (len s) 10) as [Hl|Hl]; simpl.
    + apply (len_length s 10) in Hl. tauto.
    + split; [discriminate|]. intros [Hl' _]. apply (len_length s 10) in Hl'. done.
  - split; [discriminate|]. intros [Hl Hall].
    assert (isdigit s = true) as Hd'; [|congruence].
    apply isdigit_spec. split; [|done]. by destruct s.
Qed.

Lemma Phone_cases s : Phone s = Ok (mkField s) ∨ Phone s = Raise InvalidPhone.
Proof. unfold Phone. destruct (_ || _); auto. Qed.

Lemma Phone_Ok_inv s p : Phone s = Ok p → p = mkField s ∧ ten_digits s.
Proof.
  intros H. destruct (Phone_cases s) as [H'|H']; [|congruence].
  split; [congruence|]. by apply Phone_Ok_iff.
Qed.

Lemma Phone_Raise_inv s e : Phone s = Raise e → e = InvalidPhone.
Proof. destruct (Phone_cases s); congruence. Qed.

Lemma add_phone_Ok s p self :
  Phone s = Ok p →
  add_phone s self = (Ok tt, with_phones self (phones self ++ [p])).
Proof. intros H. unfold add_phone, bindM, lift, get, put. by rewrite H. Qed.

Lemma add_phone_Raise s e self :
  Phone s = Raise e → add_phone s self = (Raise e, self).
Proof. intros H. unfold add_phone, bindM, lift. by rewrite H. Qed.

Lemma set_birthday_Ok s f self :
  Birthday s = Ok f →
  set_birthday s self = (Ok tt, with_birthday self (Some f)).
Proof. intros H. unfold set_birthday, bindM, lift, get, put. by rewrite H. Qed.

Lemma set_birthday_Raise s e self :
  Birthday s = Raise e → set_birthday s self = (Raise e, self).
Proof. intros H. unfold set_birthday, bindM, lift. by rewrite H. Qed.

(** The loop of [update_phone] stops at the first entry equal to
    [old_phone]; [list_find] names that entry. *)
Lemma update_phone_loop_find todo idx old_phone new_phone self :
  update_phone_loop idx todo old_phone new_phone self =
  match list_find (λ ph, value ph = old_phone) todo with
  | Some (i, _) =>
      match Phone new_phone with
      | Ok p => (Ok true, with_phones self (<[(idx + i)%nat := p]> (phones self)))
      | Raise e => (Raise e, self)
      end
  | None => (Raise (PhoneNotFound old_phone), self)
  end.
Proof.
  revert idx. induction todo as [|ph todo IH]; intros idx; [done|].
  cbn [update_phone_loop list_find]. case_bool_decide as Hph.
  - rewrite decide_True by done. rewrite Nat.add_0_r.
    unfold bindM, lift, get, put, ret. by destruct (Phone new_phone).
  - rewrite decide_False by done. rewrite IH.
    destruct (list_find _ todo) as [[i x]|]; simpl; [|done].
    by rewrite Nat.add_succ_r.
Qed.

Lemma update_phone_find old_phone new_phone self :
  update_phone old_phone new_phone self =
  match list_find (λ ph, value ph = old_phone) (phones self) with
  | Some (i, _) =>
      match Phone new_phone with
      | Ok p => (Ok true, with_phones self (<[i := p]> (phones self)))
      | Raise e => (Raise e, self)
      end
  | None => (Raise (PhoneNotFound old_phone), self)
  end.
Proof.
  unfold update_phone, bindM, get. by rewrite update_phone_loop_find.
Qed.

End Records.

(** ** Phone numbers *)

Section PhoneClaims.
Import Py Eff Main.

(** C3, as stated, fails: [Phone] takes the ten Arabic-Indic digits, which
    [str.isdigit] counts as digits, and stores them, although none of them
    is an ASCII decimal digit. *)
Lemma Phone_takes_non_ascii_digits :
  Phone arabic_indic_digits = Ok (mkField arabic_indic_digits)
  ∧ length arabic_indic_digits = 10%nat
  ∧ Forall (λ c, ¬ ascii_digit c) arabic_indic_digits.
Proof.
  split; [reflexivity|]. split; [reflexivity|].
  unfold arabic_indic_digits, ascii_digit.
  repeat (constructor; [lia|]). constructor.
Qed.

(** C3, amended: [Phone s] succeeds and stores [s] unchanged exactly when
    [s] has ten characters and each of them is a digit for [str.isdigit];
    otherwise it raises the "must be 10 digits" [ValueError].  For a string
    of ASCII characters this is: exactly ten ASCII decimal digits. *)
Theorem Phone_ten_isdigit_characters (s : pystr) :
  (Phone s = Ok (mkField s) ↔ ten_digits s)
  ∧ (Phone s = Raise InvalidPhone ↔ ¬ ten_digits s)
  ∧ (Forall (λ c, (c < 128)%N) s →
     Phone s = Ok (mkField s) ↔ length s = 10%nat ∧ Forall ascii_digit s).
Proof.
  split; [apply Phone_Ok_iff|]. split.
  - rewrite <- Phone_Ok_iff. destruct (Phone_cases s) as [H|H]; rewrite H.
    + split; [discriminate|]. intros Hn. by destruct Hn.
    + split; [discriminate|done].
  - intros Hascii. rewrite Phone_Ok_iff. unfold ten_digits.
    assert (Forall (λ c, isdigit_char c = true) s ↔ Forall ascii_digit s) as ->;
      [|done].
    induction Hascii as [|c s' Hc Hs' IH]; [split; constructor|].
    rewrite !list.Forall_cons, IH, (isdigit_char_ascii c Hc). done.
Qed.

(** No reply of [str(ValueError)] confuses the two failures of
    [update_phone]. *)
Lemma PhoneNotFound_not_InvalidPhone old_phone :
  PhoneNotFound old_phone ≠ InvalidPhone.
Proof.
  unfold PhoneNotFound, InvalidPhone. intros H. injection H as H.
  apply (f_equal (@rev char)) in H. rewrite !rev_app_distr in H.
  vm_compute (rev (py _)) in H. discriminate.
Qed.

(** C5, as stated, fails: with no entry equal to the old number and a new
    number that is not valid, the call reports the missing number, not the
    invalid one. *)
Lemma update_phone_absent_old_invalid_new :
  Phone (py "12ab") = Raise InvalidPhone
  ∧ update_phone (py "0000000000") (py "12ab") bob_one_phone
    = (Raise (PhoneNotFound (py "0000000000")), bob_one_phone)
  ∧ update_phone (py "0000000000") (py "12ab") bob_one_phone
    ≠ (Raise InvalidPhone, bob_one_phone).
Proof.
  split; [reflexivity|]. split; [reflexivity|].
  intros H. vm_compute in H. discriminate.
Qed.

(** C5, amended: [update_phone old new] puts a newly validated phone built
    from [new] in the place of the first entry equal to [old] and leaves
    every other entry, later duplicates of [old] among them, as it was; with
    no entry equal to [old] it raises the "not found" error for [old] and
    the record is as before; with an entry equal to [old] and a [new] that
    fails validation it raises the "must be 10 digits" error and the record
    is as before. *)
Theorem update_phone_replaces_first_match
    (self : RecordObj) (old_phone new_phone : pystr) :
  (∀ i ph,
     phones self !! i = Some ph → value ph = old_phone →
     (∀ j ph', (j < i)%nat → phones self !! j = Some ph' → value ph' ≠ old_phone) →
     ten_digits new_phone →
     ∃ self',
       update_phone old_phone new_phone self = (Ok true, self')
       ∧ name self' = name self ∧ birthday self' = birthday self
       ∧ length (phones self') = length (phones self)
       ∧ phones self' !! i = Some (mkField new_phone)
       ∧ ∀ j, j ≠ i → phones self' !! j = phones self !! j)
  ∧ ((∀ ph, ph ∈ phones self → value ph ≠ old_phone) →
     update_phone old_phone new_phone self
     = (Raise (PhoneNotFound old_phone), self))
  ∧ ((∃ ph, ph ∈ phones self ∧ value ph = old_phone) →
     ¬ ten_digits new_phone →
     update_phone old_phone new_phone self = (Raise InvalidPhone, self)).
Proof.
  rewrite update_phone_find. split; [|split].
  - intros i ph Hi Hph Hfirst Hnew.
    assert (list_find (λ ph, value ph = old_phone) (phones self) = Some (i, ph))
      as ->.
    { apply list_find_Some. split; [done|]. split; [done|].
      intros j y Hj Hlt. by apply (Hfirst j). }
    apply Phone_Ok_iff in Hnew. rewrite Hnew.
    eexists. split; [reflexivity|]. simpl.
    apply lookup_lt_Some in Hi as Hlt.
    split; [done|]. split; [done|]. split; [apply length_insert|].
    split; [by apply list_lookup_insert_eq|].
    intros j Hj. by apply list_lookup_insert_ne.
  - intros Hnone.
    assert (list_find (λ ph, value ph = old_phone) (phones self) = None) as ->;
      [|done].
    apply list_find_None, list.Forall_forall. done.
  - intros (ph & Hin & Hph) Hnew.
    destruct (list_find _ (phones self)) as [[i x]|] eqn:Hfind.
    + destruct (Phone_cases new_phone) as [H|H]; rewrite H; [|done].
      by apply Phone_Ok_iff in H.
    + rewrite list_find_None, list.Forall_forall in Hfind. by destruct (Hfind ph).
Qed.

End PhoneClaims.

(** ** The address book *)

Section BookClaims.
Import Py Eff Main.
Implicit Types (book : AddressBook) (record : RecordObj).

Lemma add_record_run record book :
  add_record record book = (Ok tt, dict_set (value (name record)) record book).
Proof. reflexivity. Qed.

(** C6: after [add_record record] the book maps the name of [record] to
    [record], whatever was stored under that name before, and every other
    name to what it mapped to; the name has exactly one entry.  Adding a
    second record with the same name replaces the first: the keys stay as
    they were after the first call and the second record is the one found. *)
Theorem add_record_last_write_wins book record :
  NoDup (keys book) →
  let n := value (name record) in
  let book' := (add_record record book).2 in
  (add_record record book).1 = Ok tt
  ∧ dict_get n book' = Some record
  ∧ (∀ k, k ≠ n → dict_get k book' = dict_get k book)
  ∧ NoDup (keys book')
  ∧ entries_for n book' = 1%nat
  ∧ ∀ record2, value (name record2) = n →
      let book'' := (add_record record2 book').2 in
      dict_get n book'' = Some record2
      ∧ keys book'' = keys book'
      ∧ entries_for n book'' = 1%nat
      ∧ ∀ k, k ≠ n → dict_get k book'' = dict_get k book.
Proof.
  intros Hnd n book'. subst book'. rewrite add_record_run. cbn [fst snd].
  fold n.
  assert (NoDup (keys (dict_set n record book))) as Hnd'
    by by apply keys_dict_set_NoDup.
  split; [done|]. split; [apply dict_get_set_eq|].
  split; [intros k Hk; by apply dict_get_set_ne|].
  split; [done|].
  split; [apply entries_for_NoDup; [done|apply keys_dict_set_elem]|].
  intros record2 Hn2. rewrite add_record_run, Hn2.
  cbn [snd]. split; [apply dict_get_set_eq|].
  split; [apply keys_dict_set_present, keys_dict_set_elem|].
  split.
  - apply entries_for_NoDup; [|apply keys_dict_set_elem].
    by apply keys_dict_set_NoDup.
  - intros k Hk. by rewrite !dict_get_set_ne.
Qed.

Lemma add_record_last_write_wins_witness :
  dict_get (py "Bob") (add_record bob_no_phone book_of_bob).2
  = Some bob_no_phone
  ∧ entries_for (py "Bob") (add_record bob_no_phone book_of_bob).2 = 1%nat.
Proof.
  assert (NoDup (keys book_of_bob)) as Hnd.
  { apply NoDup_cons_2; [apply not_elem_of_nil|apply NoDup_nil_2]. }
  pose proof (add_record_last_write_wins book_of_bob bob_no_phone Hnd) as H.
  cbv zeta in H. destruct H as (_ & Hget & _ & _ & Hone & _).
  split; [exact Hget|exact Hone].
Defined.

(** C10: [add <name> <phone>] for a name that is in the book and a phone
    that is valid appends the phone to the record stored under the name.
    The reply says so; the name, the earlier phones in their order and the
    birthday of the record are as before; the keys of the book and what
    every other key maps to are as before. *)
Theorem add_contact_existing_appends
    book (n phone : pystr) (extra : list pystr) record :
  dict_get n book = Some record →
  ten_digits phone →
  ∃ book',
    add_contact (n :: phone :: extra) book
    = (Ok (py "Phone added to " ++ n ++ py "."), book')
    ∧ dict_get n book'
      = Some (mkRecord (name record) (phones record ++ [mkField phone])
                       (birthday record))
    ∧ (∀ k, k ≠ n → dict_get k book' = dict_get k book)
    ∧ keys book' = keys book.
Proof.
  intros Hget Hphone. apply Phone_Ok_iff in Hphone.
  unfold add_contact.
  change (unpack2 (take 2 (n :: phone :: extra))) with (Ok (n, phone)).
  cbv [input_error bindM lift search get ret on_record].
  rewrite !Hget, (add_phone_Ok _ _ _ Hphone).
  eexists. split; [reflexivity|].
  split; [apply dict_get_set_eq|].
  split; [intros k Hk; by apply dict_get_set_ne|].
  eapply keys_dict_set_present, dict_get_Some_keys, Hget.
Qed.

Lemma add_contact_existing_appends_witness :
  ∃ book',
    add_contact [py "Bob"; py "0987654321"] book_of_bob
    = (Ok (py "Phone added to " ++ py "Bob" ++ py "."), book')
    ∧ keys book' = keys book_of_bob.
Proof.
  assert (ten_digits (py "0987654321")) as Hten.
  { apply Phone_Ok_iff. reflexivity. }
  destruct (add_contact_existing_appends book_of_bob (py "Bob")
              (py "0987654321") [] _ eq_refl Hten)
    as (book' & Hrun & _ & _ & Hkeys).
  exists book'. split; [exact Hrun|exact Hkeys].
Defined.



End BookClaims.

(** ** The calendar *)

(** [lia] reads [/] and [mod] by a constant through their Euclidean
    equations. *)
Ltac Zify.zify_post_hook ::= Z.to_euclidean_division_equations.

Section Calendar.
Import Py Datetime.
Local Open Scope Z_scope.

Ltac month_cases m :=
  let H := fresh "Hm" in
  assert (m = 1 ∨ m = 2 ∨ m = 3 ∨ m = 4 ∨ m = 5 ∨ m = 6 ∨ m = 7 ∨ m = 8
          ∨ m = 9 ∨ m = 10 ∨ m = 11 ∨ m = 12) as H by lia;
  destruct H as [->|[->|[->|[->|[->|[->|[->|[->|[->|[->|[->| ->]]]]]]]]]]].

Lemma is_leap_true y :
  _is_leap y = true ↔ y mod 4 = 0 ∧ (y mod 100 ≠ 0 ∨ y mod 400 = 0).
Proof.
  unfold _is_leap.
  rewrite andb_true_iff, orb_true_iff, negb_true_iff, !Z.eqb_eq, Z.eqb_neq.
  tauto.
Qed.

Lemma is_leap_false y :
  _is_leap y = false ↔ ¬ (y mod 4 = 0 ∧ (y mod 100 ≠ 0 ∨ y mod 400 = 0)).
Proof. rewrite <- is_leap_true. by destruct (_is_leap y). Qed.

Lemma days_before_year_succ y :
  _days_before_year (y + 1)
  = _days_before_year y + 365 + int_of_bool (_is_leap y).
Proof.
  unfold _days_before_year, int_of_bool. destruct (_is_leap y) eqn:E.
  - apply is_leap_true in E. lia.
  - apply is_leap_false in E. lia.
Qed.

Lemma days_before_year_mono y1 y2 :
  y1 <= y2 → _days_before_year y1 <= _days_before_year y2.
Proof. unfold _days_before_year. lia. Qed.

Lemma days_in_month_flag y m : _days_in_month y m = dim_b (_is_leap y) m.
Proof. reflexivity. Qed.

Lemma days_before_month_flag y m :
  _days_before_month y m = dbm_b (_is_leap y) m.
Proof. reflexivity. Qed.

Lemma dim_b_range leap m : 1 <= m <= 12 → 28 <= dim_b leap m <= 31.
Proof. intros Hm. month_cases m; destruct leap; vm_compute; split; discriminate. Qed.

Lemma dbm_b_nonneg leap m : 1 <= m <= 12 → 0 <= dbm_b leap m.
Proof. intros Hm. month_cases m; destruct leap; vm_compute; discriminate. Qed.

Lemma dbm_b_end leap m :
  1 <= m <= 12 → dbm_b leap m + dim_b leap m <= 365 + int_of_bool leap.
Proof. intros Hm. month_cases m; destruct leap; vm_compute; discriminate. Qed.

Lemma dbm_b_next leap m1 m2 :
  1 <= m1 → m1 < m2 → m2 <= 12 → dbm_b leap m1 + dim_b leap m1 <= dbm_b leap m2.
Proof.
  intros H1 H12 H2.
  month_cases m1; month_cases m2; try lia; destruct leap; vm_compute;
    discriminate.
Qed.

Lemma date_new_valid y m d :
  valid_ymd y m d → date_new y m d = Ok (mkdate y m d).
Proof.
  intros (Hy & Hm & Hd). unfold date_new, _check_date_fields.
  rewrite (proj2 (Z.leb_le MINYEAR y)), (proj2 (Z.leb_le y MAXYEAR)) by lia.
  rewrite (proj2 (Z.leb_le 1 m)), (proj2 (Z.leb_le m 12)) by lia.
  rewrite (proj2 (Z.leb_le 1 d)), (proj2 (Z.leb_le d _)) by lia.
  reflexivity.
Qed.

Lemma date_new_inv y m d x :
  date_new y m d = Ok x → x = mkdate y m d ∧ valid_ymd y m d.
Proof.
  unfold date_new, _check_date_fields, valid_ymd.
  destruct (Z.leb_spec MINYEAR y), (Z.leb_spec y MAXYEAR); simpl;
    try discriminate.
  destruct (Z.leb_spec 1 m), (Z.leb_spec m 12); simpl; try discriminate.
  destruct (Z.leb_spec 1 d), (Z.leb_spec d (_days_in_month y m)); simpl;
    try discriminate.
  intros [= <-]. auto.
Qed.

(** A date that [date] refuses is refused with a [ValueError]; a day past
    the end of the month is refused with the text below. *)
Lemma date_new_Raise y m d e :
  date_new y m d = Raise e → ∃ msg, e = ValueError msg.
Proof.
  unfold date_new, _check_date_fields.
  repeat (match goal with |- context [if ?c then _ else _] => destruct c end;
          simpl; [intros [= <-]; eauto|]).
  discriminate.
Qed.

Lemma date_new_day_out_of_range y m d :
  MINYEAR <= y <= MAXYEAR → 1 <= m <= 12 → _days_in_month y m < d →
  date_new y m d = Raise (ValueError (py "day is out of range for month")).
Proof.
  intros Hy Hm Hd. unfold date_new, _check_date_fields.
  rewrite (proj2 (Z.leb_le MINYEAR y)), (proj2 (Z.leb_le y MAXYEAR)) by lia.
  rewrite (proj2 (Z.leb_le 1 m)), (proj2 (Z.leb_le m 12)) by lia.
  rewrite (proj2 (Z.leb_gt d _)) by lia.
  by rewrite andb_false_r.
Qed.

(** *** Ordinals *)

Lemma ymd2ord_in_year y m d :
  1 <= m <= 12 → 1 <= d <= _days_in_month y m →
  _days_before_year y < _ymd2ord y m d <= _days_before_year (y + 1).
Proof.
  intros Hm Hd. unfold _ymd2ord.
  rewrite days_before_year_succ, days_before_month_flag.
  rewrite days_in_month_flag in Hd.
  pose proof (dbm_b_nonneg (_is_leap y) m Hm).
  pose proof (dbm_b_end (_is_leap y) m Hm). lia.
Qed.

Lemma toordinal_range d :
  valid_date d → 1 <= toordinal d <= _MAXORDINAL.
Proof.
  intros (Hy & Hm & Hd). unfold toordinal, MINYEAR, MAXYEAR in *.
  pose proof (ymd2ord_in_year _ _ _ Hm Hd) as [Hlo Hhi].
  pose proof (days_before_year_mono 1 (year d) ltac:(lia)) as H1.
  pose proof (days_before_year_mono (year d + 1) 10000 ltac:(lia)) as H2.
  change (_days_before_year 1) with 0 in H1.
  change (_days_before_year 10000) with _MAXORDINAL in H2. lia.
Qed.

Lemma toordinal_lex a b :
  valid_date a → valid_date b → lex_lt a b → toordinal a < toordinal b.
Proof.
  intros (_ & Hma & Hda) (_ & Hmb & Hdb) Hlt. unfold toordinal.
  destruct Hlt as [Hy|[Hy [Hm|[Hm Hd]]]].
  - pose proof (ymd2ord_in_year _ _ _ Hma Hda) as [_ Ha].
    pose proof (ymd2ord_in_year _ _ _ Hmb Hdb) as [Hb _].
    pose proof (days_before_year_mono (year a + 1) (year b) ltac:(lia)). lia.
  - unfold _ymd2ord. rewrite Hy in *.
    rewrite !days_before_month_flag. rewrite days_in_month_flag in Hda.
    pose proof (dbm_b_next (_is_leap (year b)) (month a) (month b)
                  ltac:(lia) Hm ltac:(lia)). lia.
  - unfold _ymd2ord. rewrite Hy, Hm. lia.
Qed.

Lemma lex_trichotomy a b : lex_lt a b ∨ a = b ∨ lex_lt b a.
Proof.
  destruct a as [y1 m1 d1], b as [y2 m2 d2]. unfold lex_lt. simpl.
  destruct (Z.lt_trichotomy y1 y2) as [?|[->|?]]; [lia| |lia].
  destruct (Z.lt_trichotomy m1 m2) as [?|[->|?]]; [lia| |lia].
  destruct (Z.lt_trichotomy d1 d2) as [?|[->|?]]; [lia| |lia].
  right. by left.
Qed.

(** Two valid dates with the same ordinal are the same date. *)
Lemma toordinal_inj a b :
  valid_date a → valid_date b → toordinal a = toordinal b → a = b.
Proof.
  intros Ha Hb Heq. destruct (lex_trichotomy a b) as [H|[H|H]]; [|done|].
  - pose proof (toordinal_lex a b Ha Hb H). lia.
  - pose proof (toordinal_lex b a Hb Ha H). lia.
Qed.

Lemma date_le_lex a b : date_le a b = true ↔ ¬ lex_lt b a.
Proof.
  unfold date_le, date_cmp, _cmp, tuple_eqb, tuple_gtb, lex_lt.
  destruct (Z.eqb_spec (year a) (year b)), (Z.eqb_spec (month a) (month b)),
    (Z.eqb_spec (day a) (day b)), (Z.ltb_spec (year b) (year a)),
    (Z.ltb_spec (month b) (month a)), (Z.ltb_spec (day b) (day a));
    simpl; split; try discriminate; try reflexivity; lia.
Qed.

(** [<=] on dates compares the day counts: no time of day is involved. *)
Lemma date_le_toordinal a b :
  valid_date a → valid_date b →
  date_le a b = true ↔ toordinal a <= toordinal b.
Proof.
  intros Ha Hb. rewrite date_le_lex. split.
  - intros Hn. destruct (lex_trichotomy a b) as [H|[->|H]]; [|lia|done].
    pose proof (toordinal_lex a b Ha Hb H). lia.
  - intros Hle Hlt. pose proof (toordinal_lex b a Hb Ha Hlt). lia.
Qed.

Lemma ord2ymd_unfold n :
  _ord2ymd n =
    let n0 := n - 1 in
    let a := n0 / 146097 in let r := n0 mod 146097 in
    let b := r / 36524 in let r1 := r mod 36524 in
    let c := r1 / 1461 in let r2 := r1 mod 1461 in
    let e := r2 / 365 in let f := r2 mod 365 in
    let Y := a * 400 + 1 + (b * 100 + c * 4 + e) in
    if (e =? 4) || (b =? 4) then (Y - 1, 12, 31)
    else
      let '(m, d) :=
        month_day ((e =? 3) && (negb (c =? 24) || (b =? 3))) f in
      (Y, m, d).
Proof.
  unfold _ord2ymd, month_day.
  change _DI400Y with 146097. change _DI100Y with 36524.
  change _DI4Y with 1461. cbv zeta.
  destruct (_ || _); [reflexivity|].
  match goal with |- context [if ?c then _ else _] => destruct c end;
    reflexivity.
Qed.

Lemma month_day_table leap :
  forallb (λ k, month_day_ok leap (Z.of_nat k)) (seq 0 365) = true.
Proof. destruct leap; vm_compute; reflexivity. Qed.

Lemma month_day_spec leap n :
  0 <= n < 365 →
  ∃ m d, month_day leap n = (m, d) ∧ 1 <= m <= 12 ∧ 1 <= d <= dim_b leap m
         ∧ dbm_b leap m + d = n + 1.
Proof.
  intros Hn. pose proof (month_day_table leap) as Ht.
  assert (month_day_ok leap n = true) as Hok.
  { rewrite forallb_forall in Ht.
    replace n with (Z.of_nat (Z.to_nat n)) by lia.
    apply Ht, in_seq. lia. }
  unfold month_day_ok in Hok. destruct (month_day leap n) as [m d].
  repeat (apply andb_true_iff in Hok as [Hok ?]).
  exists m, d. split; [done|]. lia.
Qed.

Lemma ord2ymd_year n :
  1 <= n <= _MAXORDINAL →
    let n0 := n - 1 in
    let a := n0 / 146097 in let r := n0 mod 146097 in
    let b := r / 36524 in let r1 := r mod 36524 in
    let c := r1 / 1461 in let r2 := r1 mod 1461 in
    let e := r2 / 365 in let f := r2 mod 365 in
    let Y := a * 400 + 1 + (b * 100 + c * 4 + e) in
    (e = 4 ∨ b = 4 →
       1 <= Y - 1 <= 9999
       ∧ ((Y - 1) mod 4 = 0 ∧ ((Y - 1) mod 100 ≠ 0 ∨ (Y - 1) mod 400 = 0))
       ∧ _days_before_year (Y - 1) + 366 = n)
    ∧ (e ≠ 4 → b ≠ 4 →
       1 <= Y <= 9999 ∧ 0 <= f < 365 ∧ _days_before_year Y + f + 1 = n
       ∧ ((e = 3 ∧ (c ≠ 24 ∨ b = 3))
          ↔ (Y mod 4 = 0 ∧ (Y mod 100 ≠ 0 ∨ Y mod 400 = 0)))).
Proof.
  unfold _MAXORDINAL. intros Hn. cbv zeta. unfold _days_before_year. lia.
Qed.

(** [_ord2ymd] answers a valid date, the one whose ordinal is [n]. *)
Lemma ord2ymd_ymd2ord n :
  1 <= n <= _MAXORDINAL →
  ∃ y m d, _ord2ymd n = (y, m, d) ∧ valid_ymd y m d ∧ _ymd2ord y m d = n.
Proof.
  intros Hn. rewrite ord2ymd_unfold.
  pose proof (ord2ymd_year n Hn) as Hyear. cbv zeta in Hyear |- *.
  remember ((n - 1) / 146097) as a eqn:Ea.
  remember ((n - 1) mod 146097) as r eqn:Er.
  remember (r / 36524) as b eqn:Eb. remember (r mod 36524) as r1 eqn:Er1.
  remember (r1 / 1461) as c eqn:Ec. remember (r1 mod 1461) as r2 eqn:Er2.
  remember (r2 / 365) as e eqn:Ee. remember (r2 mod 365) as f eqn:Ef.
  remember (a * 400 + 1 + (b * 100 + c * 4 + e)) as Y eqn:EY.
  clear Ea Er Eb Er1 Ec Er2 Ee Ef EY.
  destruct Hyear as [Hlast Hin].
  destruct (Z.eqb_spec e 4) as [He|He]; [|destruct (Z.eqb_spec b 4) as [Hb|Hb]];
    cbn [orb].
  - destruct Hlast as (HY & Hleap & Hord); [by left|].
    apply is_leap_true in Hleap.
    exists (Y - 1), 12, 31. split; [reflexivity|]. unfold valid_ymd, _ymd2ord.
    rewrite days_in_month_flag, days_before_month_flag, Hleap.
    change (dim_b true 12) with 31. change (dbm_b true 12) with 335.
    unfold MINYEAR, MAXYEAR. clear -HY Hord. lia.
  - destruct Hlast as (HY & Hleap & Hord); [by right|].
    apply is_leap_true in Hleap.
    exists (Y - 1), 12, 31. split; [reflexivity|]. unfold valid_ymd, _ymd2ord.
    rewrite days_in_month_flag, days_before_month_flag, Hleap.
    change (dim_b true 12) with 31. change (dbm_b true 12) with 335.
    unfold MINYEAR, MAXYEAR. clear -HY Hord. lia.
  - destruct (Hin He Hb) as (HY & Hf & Hord & Hflag).
    assert ((e =? 3) && (negb (c =? 24) || (b =? 3)) = _is_leap Y) as ->.
    { apply eq_true_iff_eq. rewrite is_leap_true, <- Hflag.
      rewrite andb_true_iff, orb_true_iff, negb_true_iff, !Z.eqb_eq, Z.eqb_neq.
      reflexivity. }
    destruct (month_day_spec (_is_leap Y) f Hf) as (m & d & -> & Hm & Hd & Hsum).
    exists Y, m, d. split; [reflexivity|]. unfold valid_ymd, _ymd2ord.
    rewrite days_in_month_flag, days_before_month_flag.
    unfold MINYEAR, MAXYEAR.
    generalize dependent (dim_b (_is_leap Y) m).
    generalize dependent (dbm_b (_is_leap Y) m).
    generalize dependent (_days_before_year Y).
    clear -HY Hm Hf. intros. lia.
Qed.

Lemma fromordinal_toordinal n :
  1 <= n <= _MAXORDINAL →
  ∃ d, fromordinal n = Ok d ∧ valid_date d ∧ toordinal d = n.
Proof.
  intros Hn. destruct (ord2ymd_ymd2ord n Hn) as (y & m & d & Heq & Hv & Hord).
  exists (mkdate y m d). unfold fromordinal. rewrite Heq.
  split; [by apply date_new_valid|]. split; done.
Qed.

(** [date + timedelta(days=k)]: the date [k] days on, or [OverflowError]
    when that day is outside the years 1 to 9999. *)
Lemma date_add_in_range d k :
  0 < toordinal d + k <= _MAXORDINAL →
  ∃ d', date_add d k = Ok d' ∧ valid_date d' ∧ toordinal d' = toordinal d + k.
Proof.
  intros Hk. unfold date_add.
  rewrite (proj2 (Z.ltb_lt 0 _)), (proj2 (Z.leb_le _ _MAXORDINAL)) by lia.
  apply fromordinal_toordinal. lia.
Qed.

Lemma date_add_overflow d k :
  ¬ (0 < toordinal d + k <= _MAXORDINAL) →
  date_add d k = Raise (OverflowError (py "date value out of range")).
Proof.
  intros Hk. unfold date_add.
  destruct (Z.ltb_spec 0 (toordinal d + k)),
    (Z.leb_spec (toordinal d + k) _MAXORDINAL); simpl; try done. lia.
Qed.

Lemma weekday_range d : 0 <= weekday d <= 6.
Proof. unfold weekday. lia. Qed.

End Calendar.

(** ** The date pattern *)

Section Regex.
Import Py Re.
Local Open Scope N_scope.

Lemma in_step p s a :
  In a (step p s) ↔ ∃ c s', s = c :: s' ∧ p c = true ∧ a = mkAttempt [c] s' [].
Proof.
  destruct s as [|c s]; simpl.
  - split; [done|]. intros (? & ? & ? & _). done.
  - destruct (p c) eqn:Hp; simpl.
    + split.
      * intros [<-|[]]. eauto.
      * intros (c' & s' & [= -> ->] & _ & ->). by left.
    + split; [done|]. intros (c' & s' & [= -> ->] & Hp' & _). congruence.
Qed.

Lemma run_matches r s a : In a (run r s) ↔ matches r s a.
Proof.
  revert s a. induction r as [c|lo hi| |r1 IH1 r2 IH2|r1 IH1 r2 IH2|name r IH];
    intros s a; cbn [run].
  - rewrite in_step. split.
    + intros (c' & s' & -> & Hc & ->). apply N.eqb_eq in Hc as <-. constructor.
    + inversion 1; subst. eexists _, _. split; [done|]. split; [apply N.eqb_refl|done].
  - rewrite in_step. split.
    + intros (c' & s' & -> & Hc & ->). apply andb_true_iff in Hc as [H1 H2].
      apply N.leb_le in H1, H2. by constructor.
    + inversion 1; subst. eexists _, _. split; [done|]. split; [|done].
      apply andb_true_iff. split; apply N.leb_le; lia.
  - rewrite in_step. split.
    + intros (c' & s' & -> & Hc & ->). by constructor.
    + inversion 1; subst. eauto.
  - rewrite in_flat_map. split.
    + intros (a1 & H1 & H2). apply in_map_iff in H2 as (a2 & <- & H2).
      apply IH1 in H1. apply IH2 in H2. by constructor.
    + inversion 1; subst. exists a1. split; [by apply IH1|].
      apply in_map_iff. exists a2. split; [done|by apply IH2].
  - rewrite in_app_iff, IH1, IH2. split.
    + intros [H|H]; [by apply matches_alt_l|by apply matches_alt_r].
    + inversion 1; subst; auto.
  - rewrite in_map_iff. split.
    + intros (a' & <- & H). apply IH in H. by constructor.
    + inversion 1; subst. eexists. split; [done|by apply IH].
Qed.

Ltac inv_matches :=
  repeat (match goal with
  | H : matches (Group _ _) _ _ |- _ => inversion H; subst; clear H
  | H : matches (Seq _ _) _ _ |- _ => inversion H; subst; clear H
  | H : matches (Alt _ _) _ _ |- _ => inversion H; subst; clear H
  | H : matches (Chr _) _ _ |- _ => inversion H; subst; clear H
  | H : matches (Rng _ _) _ _ |- _ => inversion H; subst; clear H
  | H : matches DigitClass _ _ |- _ => inversion H; subst; clear H
  end; cbn [consumed rest groups app] in *; subst).

Lemma matches_seq' r1 r2 s c1 s1 g1 c2 s2 g2 :
  matches r1 s (mkAttempt c1 s1 g1) → matches r2 s1 (mkAttempt c2 s2 g2) →
  matches (Seq r1 r2) s (mkAttempt (c1 ++ c2) s2 (g1 ++ g2)).
Proof. intros H1 H2. exact (matches_seq r1 r2 s _ _ H1 H2). Qed.

Lemma matches_group' name r s c s1 g :
  matches r s (mkAttempt c s1 g) →
  matches (Group name r) s (mkAttempt c s1 ((name, c) :: g)).
Proof. intros H. exact (matches_group name r s _ H). Qed.

(** Two characters in a row. *)
Lemma matches_pair r1 r2 c1 c2 s :
  matches r1 (c1 :: c2 :: s) (mkAttempt [c1] (c2 :: s) []) →
  matches r2 (c2 :: s) (mkAttempt [c2] s []) →
  matches (Seq r1 r2) (c1 :: c2 :: s) (mkAttempt [c1; c2] s []).
Proof. intros H1 H2. exact (matches_seq' _ _ _ _ _ _ _ _ _ H1 H2). Qed.

Lemma directive_d_eq : directive_d =
  Group "d"
    (Alt (Seq (Chr 51) (Rng 48 49))
    (Alt (Seq (Rng 49 50) DigitClass)
    (Alt (Seq (Chr 48) (Rng 49 57))
    (Alt (Rng 49 57)
         (Seq (Chr 32) (Rng 49 57)))))).
Proof. reflexivity. Qed.

Lemma matches_directive_d s a :
  matches directive_d s a ↔
  ∃ D s', day_shape D ∧ s = D ++ s' ∧ a = mkAttempt D s' [("d"%string, D)].
Proof.
  rewrite directive_d_eq. split.
  - intros H. inv_matches;
      match goal with
      | |- ∃ D s', _ ∧ _ ∧ mkAttempt ?D0 ?s0 _ = _ => exists D0, s0
      end; (split; [|split; reflexivity]); unfold day_shape.
    + right. eexists _, _. split; [done|]. left. done.
    + right. eexists _, _. split; [done|]. right. done.
    + left. eexists. split; [|right; left; done]. done.
    + left. eexists. split; [|left; done]. done.
    + left. eexists. split; [|right; right; done]. done.
  - intros (D & s' & HD & -> & ->). apply matches_group'.
    destruct HD as [(c & Hc & [-> | [-> | ->] ]) | (c1 & c2 & -> & [ [-> Hc] | [Hc1 Hc2] ])].
    + do 3 apply matches_alt_r. apply matches_alt_l. by constructor.
    + do 2 apply matches_alt_r. apply matches_alt_l.
      apply matches_pair; by constructor.
    + do 4 apply matches_alt_r. apply matches_pair; by constructor.
    + apply matches_alt_l. apply matches_pair; by constructor.
    + apply matches_alt_r, matches_alt_l. apply matches_pair; by constructor.
Qed.

Lemma directive_m_eq : directive_m =
  Group "m"
    (Alt (Seq (Chr 49) (Rng 48 50))
    (Alt (Seq (Chr 48) (Rng 49 57))
         (Rng 49 57))).
Proof. reflexivity. Qed.

Lemma matches_directive_m s a :
  matches directive_m s a ↔
  ∃ M s', month_shape M ∧ s = M ++ s' ∧ a = mkAttempt M s' [("m"%string, M)].
Proof.
  rewrite directive_m_eq. split.
  - intros H. inv_matches;
      match goal with
      | |- ∃ D s', _ ∧ _ ∧ mkAttempt ?D0 ?s0 _ = _ => exists D0, s0
      end; (split; [|split; reflexivity]); unfold month_shape.
    + right. eexists. split; done.
    + left. eexists. split; [|right; done]. done.
    + left. eexists. split; [|left; done]. done.
  - intros (M & s' & HM & -> & ->). apply matches_group'.
    destruct HM as [(c & Hc & [-> | ->]) | (c & -> & Hc)].
    + do 2 apply matches_alt_r. by constructor.
    + apply matches_alt_r, matches_alt_l. apply matches_pair; by constructor.
    + apply matches_alt_l. apply matches_pair; by constructor.
Qed.

Lemma year_shape_inv Y :
  year_shape Y ↔
  ∃ c1 c2 c3 c4, Y = [c1; c2; c3; c4] ∧ isdecimal_char c1 = true
    ∧ isdecimal_char c2 = true ∧ isdecimal_char c3 = true
    ∧ isdecimal_char c4 = true.
Proof.
  unfold year_shape. split.
  - intros [Hlen Hall].
    destruct Y as [|c1 [|c2 [|c3 [|c4 [|]]]]]; try discriminate.
    rewrite !list.Forall_cons in Hall.
    exists c1, c2, c3, c4. tauto.
  - intros (c1 & c2 & c3 & c4 & -> & H1 & H2 & H3 & H4).
    split; [done|]. repeat constructor; done.
Qed.

Lemma matches_directive_Y s a :
  matches directive_Y s a ↔
  ∃ Y s', year_shape Y ∧ s = Y ++ s' ∧ a = mkAttempt Y s' [("Y"%string, Y)].
Proof.
  unfold directive_Y. split.
  - intros H. inv_matches.
    match goal with
    | |- ∃ D s', _ ∧ _ ∧ mkAttempt ?D0 ?s0 _ = _ => exists D0, s0
    end. split; [|split; reflexivity]. apply year_shape_inv. eauto 10.
  - intros (Y & s' & HY & -> & ->). apply matches_group'.
    apply year_shape_inv in HY as (c1 & c2 & c3 & c4 & -> & H1 & H2 & H3 & H4).
    apply (matches_seq' _ _ _ [c1] (c2 :: c3 :: c4 :: s') [] [c2; c3; c4] s' []);
      [by constructor|].
    apply (matches_seq' _ _ _ [c2] (c3 :: c4 :: s') [] [c3; c4] s' []);
      [by constructor|].
    apply matches_pair; by constructor.
Qed.

Lemma matches_seq_inv r1 r2 s a :
  matches (Seq r1 r2) s a ↔
  ∃ a1 a2, matches r1 s a1 ∧ matches r2 (rest a1) a2
    ∧ a = mkAttempt (consumed a1 ++ consumed a2) (rest a2)
                    (groups a1 ++ groups a2).
Proof.
  split.
  - inversion 1; subst. eauto.
  - intros (a1 & a2 & H1 & H2 & ->). by constructor.
Qed.

Lemma matches_chr_inv c s a :
  matches (Chr c) s a ↔ ∃ s', s = c :: s' ∧ a = mkAttempt [c] s' [].
Proof.
  split.
  - inversion 1; subst. eauto.
  - intros (s' & -> & ->). constructor.
Qed.

Lemma format_regex_eq : format_regex =
  Seq directive_d (Seq (Chr 46) (Seq directive_m (Seq (Chr 46) directive_Y))).
Proof. reflexivity. Qed.

Lemma matches_format_regex s a :
  matches format_regex s a ↔
  ∃ D M Y s', day_shape D ∧ month_shape M ∧ year_shape Y
    ∧ s = D ++ dot ++ M ++ dot ++ Y ++ s'
    ∧ a = mkAttempt (D ++ dot ++ M ++ dot ++ Y) s'
            [("d"%string, D); ("m"%string, M); ("Y"%string, Y)].
Proof.
  rewrite format_regex_eq. split.
  - intros H.
    apply matches_seq_inv in H as (a1 & a2 & H1 & H2 & ->).
    apply matches_directive_d in H1 as (D & s1 & HD & -> & ->).
    cbn [rest consumed groups] in *.
    apply matches_seq_inv in H2 as (b1 & b2 & H1 & H2 & ->).
    apply matches_chr_inv in H1 as (s2 & -> & ->).
    cbn [rest consumed groups] in *.
    apply matches_seq_inv in H2 as (c1 & c2 & H1 & H2 & ->).
    apply matches_directive_m in H1 as (M & s3 & HM & -> & ->).
    cbn [rest consumed groups] in *.
    apply matches_seq_inv in H2 as (d1 & d2 & H1 & H2 & ->).
    apply matches_chr_inv in H1 as (s4 & -> & ->).
    cbn [rest consumed groups] in *.
    apply matches_directive_Y in H2 as (Y & s5 & HY & -> & ->).
    cbn [rest consumed groups] in *.
    exists D, M, Y, s5. unfold dot. cbn [app]. do 4 (split; [done|]). done.
  - intros (D & M & Y & s' & HD & HM & HY & -> & ->).
    apply (matches_seq' _ _ _ D (dot ++ M ++ dot ++ Y ++ s') [("d"%string, D)]
             (dot ++ M ++ dot ++ Y) s' [("m"%string, M); ("Y"%string, Y)]).
    { apply matches_directive_d. eauto. }
    apply (matches_seq' _ _ _ dot (M ++ dot ++ Y ++ s') []
             (M ++ dot ++ Y) s' [("m"%string, M); ("Y"%string, Y)]).
    { constructor. }
    apply (matches_seq' _ _ _ M (dot ++ Y ++ s') [("m"%string, M)]
             (dot ++ Y) s' [("Y"%string, Y)]).
    { apply matches_directive_m. eauto. }
    apply (matches_seq' _ _ _ dot (Y ++ s') [] Y s' [("Y"%string, Y)]).
    { constructor. }
    apply matches_directive_Y. eauto.
Qed.

Lemma app_sep_inj (sep : char) (D1 D2 t1 t2 : pystr) :
  sep ∉ D1 → sep ∉ D2 → D1 ++ sep :: t1 = D2 ++ sep :: t2 →
  D1 = D2 ∧ t1 = t2.
Proof.
  revert D2. induction D1 as [|c D1 IH]; intros [|c2 D2] H1 H2 Heq;
    cbn [app] in Heq.
  - by injection Heq.
  - injection Heq as -> _. destruct H2. apply list_elem_of_here.
  - injection Heq as -> _. destruct H1. apply list_elem_of_here.
  - injection Heq as -> Heq. apply not_elem_of_cons in H1 as [_ H1].
    apply not_elem_of_cons in H2 as [_ H2].
    destruct (IH D2 H1 H2 Heq) as [-> ->]. done.
Qed.

Lemma isdecimal_char_not_dot c : isdecimal_char c = true → c ≠ 46.
Proof. intros H ->. discriminate. Qed.

Lemma day_shape_no_dot D : day_shape D → 46 ∉ D.
Proof.
  intros [(c & Hc & [-> | [-> | ->] ]) | (c1 & c2 & -> & [ [-> Hc] | [Hc1 Hc2] ])];
    rewrite ?not_elem_of_cons; repeat split;
    try apply not_elem_of_nil; try lia.
  by apply not_eq_sym, isdecimal_char_not_dot.
Qed.

Lemma month_shape_no_dot M : month_shape M → 46 ∉ M.
Proof.
  intros [(c & Hc & [-> | ->]) | (c & -> & Hc)];
    rewrite ?not_elem_of_cons; repeat split;
    try apply not_elem_of_nil; lia.
Qed.

(** The pattern matches a text in one way at most. *)
Lemma matches_format_regex_unique s a1 a2 :
  matches format_regex s a1 → matches format_regex s a2 → a1 = a2.
Proof.
  rewrite !matches_format_regex.
  intros (D1 & M1 & Y1 & s1 & HD1 & HM1 & HY1 & -> & ->)
         (D2 & M2 & Y2 & s2 & HD2 & HM2 & HY2 & Heq & ->).
  unfold dot in *. cbn [app] in *.
  apply app_sep_inj in Heq as [-> Heq]; [|by apply day_shape_no_dot..].
  apply app_sep_inj in Heq as [-> Heq]; [|by apply month_shape_no_dot..].
  apply app_inj_1 in Heq as [-> ->]; [done|].
  destruct HY1 as [-> _], HY2 as [-> _]. done.
Qed.

(** [pattern.match] finds the one way, if there is one. *)
Lemma re_match_format_regex s a :
  re_match format_regex s = Some a ↔ matches format_regex s a.
Proof.
  unfold re_match. split.
  - intros H. apply run_matches. destruct (run format_regex s); [done|].
    injection H as ->. by left.
  - intros H. destruct (run format_regex s) as [|a' l] eqn:Hrun.
    + apply run_matches in H. by rewrite Hrun in H.
    + cbn [head]. f_equal. apply matches_format_regex_unique with s; [|done].
      apply run_matches. rewrite Hrun. by left.
Qed.

End Regex.

(** ** Reading and writing dates *)

Section Strptime.
Import Py Re Datetime Main.
Local Open Scope Z_scope.

Lemma len_app_same {A} (t s' : list A) :
  (len (t ++ s') =? len t) = true ↔ s' = [].
Proof.
  unfold len. rewrite length_app, Z.eqb_eq. destruct s'; simpl; split;
    try done; lia.
Qed.

Lemma py_int_Raise s e : py_int s = Raise e → ∃ msg, e = ValueError msg.
Proof.
  unfold py_int. destruct (strip s); [intros [= <-]; eauto|].
  destruct (forallb _ _); [discriminate|intros [= <-]; eauto].
Qed.

(** What [_strptime] takes: a day, a dot, a month, a dot and a year, each
    of the shape its directive allows, that read as the numbers of a date
    of the calendar. *)
Lemma _strptime_Ok s y m d :
  _strptime s = Ok (y, m, d) ↔
  ∃ D M Y, s = D ++ dot ++ M ++ dot ++ Y
    ∧ day_shape D ∧ month_shape M ∧ year_shape Y
    ∧ py_int D = Ok d ∧ py_int M = Ok m ∧ py_int Y = Ok y
    ∧ valid_ymd y m d.
Proof.
  unfold _strptime. split.
  - destruct (re_match format_regex s) as [found|] eqn:Hm; [|discriminate].
    apply re_match_format_regex, matches_format_regex in Hm
      as (D & M & Y & s' & HD & HM & HY & -> & ->).
    cbn [consumed groups].
    change (group "Y" _) with Y. change (group "m" _) with M.
    change (group "d" _) with D.
    replace (D ++ dot ++ M ++ dot ++ Y ++ s')
      with ((D ++ dot ++ M ++ dot ++ Y) ++ s') by by rewrite <- !app_assoc.
    destruct (len _ =? len _) eqn:Hlen; [|discriminate]. cbn [negb].
    apply len_app_same in Hlen as ->. rewrite app_nil_r.
    destruct (py_int Y) as [y'|] eqn:HiY; [|discriminate].
    destruct (py_int M) as [m'|] eqn:HiM; [|discriminate].
    destruct (py_int D) as [d'|] eqn:HiD; [|discriminate].
    cbn [bind]. destruct (date_new y' m' d') as [x|] eqn:Hnew; [|discriminate].
    cbn [bind]. intros [= -> -> ->]. apply date_new_inv in Hnew as [_ Hv].
    exists D, M, Y. auto 10.
  - intros (D & M & Y & -> & HD & HM & HY & HiD & HiM & HiY & Hv).
    assert (re_match format_regex (D ++ dot ++ M ++ dot ++ Y)
            = Some (mkAttempt (D ++ dot ++ M ++ dot ++ Y) []
                      [("d"%string, D); ("m"%string, M); ("Y"%string, Y)]))
      as ->.
    { apply re_match_format_regex, matches_format_regex.
      exists D, M, Y, []. rewrite app_nil_r. auto 10. }
    cbn [consumed groups]. rewrite Z.eqb_refl. cbn [negb].
    change (group "Y" _) with Y. change (group "m" _) with M.
    change (group "d" _) with D.
    rewrite HiY, HiM, HiD. cbn [bind]. by rewrite (date_new_valid _ _ _ Hv).
Qed.

Lemma _strptime_Raise s e : _strptime s = Raise e → ∃ msg, e = ValueError msg.
Proof.
  unfold _strptime.
  destruct (re_match format_regex s) as [found|]; [|intros [= <-]; eauto].
  destruct (negb _); [intros [= <-]; eauto|].
  destruct (py_int (group "Y" _)) eqn:HY; [|intros [= <-]; by eapply py_int_Raise].
  destruct (py_int (group "m" _)) eqn:HM; [|intros [= <-]; by eapply py_int_Raise].
  destruct (py_int (group "d" _)) eqn:HD; [|intros [= <-]; by eapply py_int_Raise].
  cbn [bind]. destruct (date_new _ _ _) eqn:Hnew; [discriminate|].
  intros [= <-]. by eapply date_new_Raise.
Qed.

Lemma strptime_Ok s x :
  strptime s = Ok x ↔ _strptime s = Ok (year x, month x, day x).
Proof.
  unfold strptime. split.
  - destruct (_strptime s) as [[[y m] d]|] eqn:Hs; [|discriminate].
    cbn [bind]. intros Hnew. apply date_new_inv in Hnew as [-> _]. done.
  - intros Hs. rewrite Hs. cbn [bind].
    apply _strptime_Ok in Hs as (_ & _ & _ & _ & _ & _ & _ & _ & _ & _ & Hv).
    rewrite (date_new_valid _ _ _ Hv). by destruct x.
Qed.

Lemma strptime_valid s x : strptime s = Ok x → valid_date x.
Proof.
  intros H. apply strptime_Ok, _strptime_Ok in H. unfold valid_date.
  destruct H as (_ & _ & _ & _ & _ & _ & _ & _ & _ & _ & Hv). done.
Qed.

Lemma strptime_Raise s e : strptime s = Raise e → ∃ msg, e = ValueError msg.
Proof.
  unfold strptime. destruct (_strptime s) as [[[y m] d]|] eqn:Hs.
  - cbn [bind]. apply _strptime_Ok in Hs
      as (_ & _ & _ & _ & _ & _ & _ & _ & _ & _ & Hv).
    by rewrite (date_new_valid _ _ _ Hv).
  - intros [= <-]. by eapply _strptime_Raise.
Qed.

Lemma Birthday_Ok_iff s : Birthday s = Ok (mkField s) ↔ ∃ x, strptime s = Ok x.
Proof.
  unfold Birthday. destruct (strptime s) as [x|e] eqn:Hs; cbn.
  - split; eauto.
  - apply strptime_Raise in Hs as [msg ->]. cbn.
    split; [discriminate|]. intros [x Hx]. discriminate.
Qed.

Lemma Birthday_cases s :
  Birthday s = Ok (mkField s) ∨ Birthday s = Raise InvalidDateFormat.
Proof.
  unfold Birthday. destruct (strptime s) as [x|e] eqn:Hs; cbn; [by left|].
  apply strptime_Raise in Hs as [msg ->]. by right.
Qed.

End Strptime.

(** ** Dates written as DD.MM.YYYY *)

Section Canonical.
Import Py Re Datetime Main.
Local Open Scope Z_scope.

Lemma in_ranges_disjoint t1 t2 c :
  ranges_disjoint t1 t2 = true → in_ranges t1 c = true → in_ranges t2 c = false.
Proof.
  intros Hd H1. apply not_true_is_false. intros H2.
  apply in_ranges_spec in H1 as (lo1 & hi1 & Hin1 & Hc1).
  apply in_ranges_spec in H2 as (lo2 & hi2 & Hin2 & Hc2).
  unfold ranges_disjoint in Hd. rewrite forallb_forall in Hd.
  specialize (Hd _ Hin1). rewrite forallb_forall in Hd.
  specialize (Hd _ Hin2). cbn [fst snd] in Hd.
  apply orb_true_iff in Hd as [H|H]; apply N.ltb_lt in H; lia.
Qed.

Lemma isdecimal_not_space c : isdecimal_char c = true → int_space_char c = false.
Proof. apply in_ranges_disjoint. vm_compute. reflexivity. Qed.

Lemma lstrip_id c s : int_space_char c = false → lstrip (c :: s) = c :: s.
Proof. intros H. cbn [lstrip]. by rewrite H. Qed.

Lemma strip_decimal t :
  Forall (λ c, isdecimal_char c = true) t → strip t = t.
Proof.
  intros Hall. destruct t as [|c t]; [done|]. unfold strip.
  rewrite lstrip_id
    by (apply isdecimal_not_space; by apply list.Forall_cons in Hall as [? _]).
  destruct (rev (c :: t)) as [|c' t'] eqn:Hrev.
  - apply (f_equal (@length char)) in Hrev. rewrite length_rev in Hrev.
    discriminate.
  - rewrite lstrip_id.
    + by rewrite <- Hrev, rev_involutive.
    + apply isdecimal_not_space. rewrite list.Forall_forall in Hall.
      apply Hall. apply list_elem_of_In, in_rev. rewrite Hrev. by left.
Qed.

Lemma py_int_digits t :
  t ≠ [] → Forall (λ c, isdecimal_char c = true) t →
  py_int t = Ok (digits_value t).
Proof.
  intros Hne Hall. unfold py_int. rewrite (strip_decimal t Hall).
  destruct t as [|c t]; [done|].
  assert (forallb isdecimal_char (c :: t) = true) as ->; [|done].
  apply forallb_forall. intros x Hx. rewrite list.Forall_forall in Hall.
  by apply Hall, list_elem_of_In.
Qed.

Ltac digit_cases k :=
  let H := fresh "Hk" in
  assert (k = 0 ∨ k = 1 ∨ k = 2 ∨ k = 3 ∨ k = 4 ∨ k = 5 ∨ k = 6 ∨ k = 7
          ∨ k = 8 ∨ k = 9) as H by lia;
  destruct H as [->|[->|[->|[->|[->|[->|[->|[->|[->| ->]]]]]]]]].

Lemma digit_char_decimal k :
  0 <= k <= 9 →
  isdecimal_char (digit_char k) = true ∧ decimal_value (digit_char k) = k.
Proof. intros Hk. digit_cases k; split; reflexivity. Qed.

Lemma digit_char_ascii k : 0 <= k <= 9 → ascii_digit (digit_char k).
Proof. intros Hk. unfold ascii_digit, digit_char. lia. Qed.

Lemma py_int_pad2 n : 0 <= n <= 99 → py_int (pad2 n) = Ok n.
Proof.
  intros Hn. unfold pad2.
  destruct (digit_char_decimal (n / 10)) as [Ha Hva]; [lia|].
  destruct (digit_char_decimal (n mod 10)) as [Hb Hvb]; [lia|].
  rewrite py_int_digits; [|done|by repeat constructor].
  unfold digits_value. cbn [fold_left]. rewrite Hva, Hvb. f_equal. lia.
Qed.

Lemma py_int_pad4 y : 0 <= y <= 9999 → py_int (pad4 y) = Ok y.
Proof.
  intros Hy. unfold pad4.
  destruct (digit_char_decimal (y / 1000)) as [H1 Hv1]; [lia|].
  destruct (digit_char_decimal (y / 100 mod 10)) as [H2 Hv2]; [lia|].
  destruct (digit_char_decimal (y / 10 mod 10)) as [H3 Hv3]; [lia|].
  destruct (digit_char_decimal (y mod 10)) as [H4 Hv4]; [lia|].
  rewrite py_int_digits; [|done|by repeat constructor].
  unfold digits_value. cbn [fold_left]. rewrite Hv1, Hv2, Hv3, Hv4.
  f_equal. lia.
Qed.

Lemma year_shape_pad4 y : 0 <= y <= 9999 → year_shape (pad4 y).
Proof.
  intros Hy. split; [done|]. unfold pad4.
  repeat (constructor; [apply digit_char_decimal; lia|]). constructor.
Qed.

Lemma day_shape_pad2 d : 1 <= d <= 31 → day_shape (pad2 d).
Proof.
  intros Hd. unfold pad2, day_shape.
  assert (0 <= d mod 10 <= 9) as Hb by lia.
  assert (d / 10 = 0 ∨ d / 10 = 1 ∨ d / 10 = 2 ∨ d / 10 = 3) as Ha by lia.
  destruct Ha as [Ha|[Ha|[Ha|Ha]]]; rewrite Ha.
  - left. exists (digit_char (d mod 10)). split; [|right; left; done].
    unfold digit_char. lia.
  - right. eexists _, _. split; [done|]. right.
    split; [done|]. by apply digit_char_decimal.
  - right. eexists _, _. split; [done|]. right.
    split; [done|]. by apply digit_char_decimal.
  - right. eexists _, _. split; [done|]. left.
    split; [done|]. unfold digit_char. lia.
Qed.

Lemma month_shape_pad2 m : 1 <= m <= 12 → month_shape (pad2 m).
Proof.
  intros Hm. unfold pad2, month_shape.
  assert (m / 10 = 0 ∨ m / 10 = 1) as Ha by lia.
  destruct Ha as [Ha|Ha]; rewrite Ha.
  - left. exists (digit_char (m mod 10)). split; [|right; done].
    unfold digit_char. lia.
  - right. eexists. split; [done|]. unfold digit_char. lia.
Qed.

(** Every date of the calendar, written DD.MM.YYYY, is read back as itself. *)
Lemma strptime_DD_MM_YYYY y m d :
  valid_ymd y m d → strptime (DD_MM_YYYY y m d) = Ok (mkdate y m d).
Proof.
  intros Hv. apply strptime_Ok, _strptime_Ok. cbn [year month day].
  destruct Hv as (Hy & Hm & Hd). unfold MINYEAR, MAXYEAR in Hy.
  pose proof (dim_b_range (_is_leap y) m Hm) as Hdim.
  rewrite days_in_month_flag in Hd.
  exists (pad2 d), (pad2 m), (pad4 y). split; [done|].
  split; [apply day_shape_pad2; lia|].
  split; [by apply month_shape_pad2|].
  split; [apply year_shape_pad4; lia|].
  split; [apply py_int_pad2; lia|].
  split; [apply py_int_pad2; lia|].
  split; [apply py_int_pad4; lia|].
  unfold valid_ymd, MINYEAR, MAXYEAR. by rewrite days_in_month_flag.
Qed.

Lemma str_of_int_pad4 y : 1000 <= y <= 9999 → str_of_int y = pad4 y.
Proof.
  intros Hy. unfold str_of_int, pad4.
  replace (S (Z.to_nat y)) with (S (S (S (S (Z.to_nat (y - 3)))))) by lia.
  cbn [decimal_digits].
  rewrite (proj2 (Z.ltb_ge y 10)) by lia.
  rewrite (proj2 (Z.ltb_ge (y / 10) 10)) by lia.
  rewrite (proj2 (Z.ltb_ge (y / 10 / 10) 10)) by lia.
  rewrite (proj2 (Z.ltb_lt (y / 10 / 10 / 10) 10)) by lia.
  assert (y / 10 / 10 = y / 100) as -> by lia.
  assert (y / 100 / 10 = y / 1000) as -> by lia. done.
Qed.

(** From the year 1000 on, [strftime] writes DD.MM.YYYY. *)
Lemma strftime_DD_MM_YYYY x :
  1000 <= year x <= 9999 → strftime x = DD_MM_YYYY (year x) (month x) (day x).
Proof.
  intros Hy. unfold strftime, DD_MM_YYYY. by rewrite str_of_int_pad4.
Qed.

End Canonical.

(** ** Birthdays *)

Section BirthdayClaims.
Import Py Re Datetime Main.
Local Open Scope Z_scope.

Lemma DD_MM_YYYY_length y m d : length (DD_MM_YYYY y m d) = 10%nat.
Proof. reflexivity. Qed.

(** C4, as stated, fails: [Birthday] takes a day and a month written on one
    digit; the text has eight characters and is no DD.MM.YYYY. *)
Lemma Birthday_takes_one_digit_day_and_month :
  Birthday (py "1.1.2024") = Ok (mkField (py "1.1.2024"))
  ∧ length (py "1.1.2024") = 8%nat
  ∧ ∀ y m d, py "1.1.2024" ≠ DD_MM_YYYY y m d.
Proof.
  split; [vm_compute; reflexivity|]. split; [reflexivity|].
  intros y m d H. apply (f_equal (@length char)) in H.
  rewrite DD_MM_YYYY_length in H. discriminate.
Qed.

Lemma pad2_no_dot n : 0 <= n <= 99 → 46%N ∉ pad2 n.
Proof.
  intros Hn. unfold pad2. rewrite !not_elem_of_cons.
  unfold digit_char. repeat split; try lia. apply not_elem_of_nil.
Qed.

(** A text in the DD.MM.YYYY form is taken only if its date exists. *)
Lemma strptime_DD_MM_YYYY_inv y m d x :
  0 <= y <= 9999 → 0 <= m <= 99 → 0 <= d <= 99 →
  strptime (DD_MM_YYYY y m d) = Ok x → valid_ymd y m d ∧ x = mkdate y m d.
Proof.
  intros Hy Hm Hd Hs. apply strptime_Ok, _strptime_Ok in Hs
    as (D & M & Y & Heq & HD & HM & HY & HiD & HiM & HiY & Hv).
  unfold DD_MM_YYYY, dot in Heq. cbn [app] in Heq.
  change (pad2 d ++ 46%N :: pad2 m ++ 46%N :: pad4 y)
    with (pad2 d ++ 46%N :: (pad2 m ++ 46%N :: pad4 y)) in Heq.
  apply app_sep_inj in Heq as [<- Heq];
    [|by apply pad2_no_dot|by apply day_shape_no_dot].
  apply app_sep_inj in Heq as [<- <-];
    [|by apply pad2_no_dot|by apply month_shape_no_dot].
  rewrite py_int_pad2 in HiD, HiM by done. rewrite py_int_pad4 in HiY by done.
  injection HiD as HiD. injection HiM as HiM. injection HiY as HiY.
  rewrite <- HiD, <- HiM, <- HiY in Hv. split; [done|].
  destruct x as [xy xm xd]. cbn [year month day] in *. congruence.
Qed.

(** C4, amended: [Birthday s] succeeds exactly when [strptime] takes [s]
    under ["%d.%m.%Y"]: [s] is a day, a dot, a month, a dot and a year, the
    day being 1 to 9 alone, after a zero or after a space, or 10 to 31; the
    month 1 to 9 alone or after a zero, or 10 to 12; the year four decimal
    digits; and the three numbers a date of the calendar in the years 1 to
    9999.  Any other string fails with the "Invalid date format" error.
    Every date of the calendar written DD.MM.YYYY is taken, a text in the
    DD.MM.YYYY form is taken only if its date exists, "29.02.2024" is taken
    and "29.02.2023" is not. *)
Theorem Birthday_accepts_what_strptime_reads (s : pystr) :
  (Birthday s = Ok (mkField s) ↔
   ∃ D M Y d m y, s = D ++ dot ++ M ++ dot ++ Y
     ∧ day_shape D ∧ month_shape M ∧ year_shape Y
     ∧ py_int D = Ok d ∧ py_int M = Ok m ∧ py_int Y = Ok y
     ∧ valid_ymd y m d)
  ∧ (Birthday s = Ok (mkField s) ∨ Birthday s = Raise InvalidDateFormat)
  ∧ (∀ y m d, 0 <= y <= 9999 → 0 <= m <= 99 → 0 <= d <= 99 →
       Birthday (DD_MM_YYYY y m d) = Ok (mkField (DD_MM_YYYY y m d))
       ↔ valid_ymd y m d)
  ∧ Birthday (py "29.02.2024") = Ok (mkField (py "29.02.2024"))
  ∧ Birthday (py "29.02.2023") = Raise InvalidDateFormat.
Proof.
  split; [|split; [apply Birthday_cases|split; [|split]]].
  - rewrite Birthday_Ok_iff. split.
    + intros [x Hx]. apply strptime_Ok, _strptime_Ok in Hx
        as (D & M & Y & H). exists D, M, Y, (day x), (month x), (year x). done.
    + intros (D & M & Y & d & m & y & H). exists (mkdate y m d).
      apply strptime_Ok, _strptime_Ok. exists D, M, Y. done.
  - intros y m d Hy Hm Hd. rewrite Birthday_Ok_iff. split.
    + intros [x Hx]. by apply strptime_DD_MM_YYYY_inv in Hx as [Hv _].
    + intros Hv. eexists. by apply strptime_DD_MM_YYYY.
  - vm_compute. reflexivity.
  - vm_compute. reflexivity.
Qed.

End BirthdayClaims.

(** ** What the book holds *)

Section Invariant.
Import Py Eff Datetime Main.

Lemma Record_init_ok n : record_ok (Record_init n).
Proof. split; [constructor|]. intros b [=]. Qed.

Lemma add_phone_ok p self : record_ok self → record_ok (add_phone p self).2.
Proof.
  intros [Hph Hb]. destruct (Phone p) as [f|e] eqn:HP.
  - rewrite (add_phone_Ok _ _ _ HP). apply Phone_Ok_inv in HP as [-> Hten].
    split; [|done]. cbn. apply Forall_app. split; [done|].
    constructor; [exact Hten|constructor].
  - by rewrite (add_phone_Raise _ _ _ HP).
Qed.

Lemma update_phone_ok old_phone new_phone self :
  record_ok self → record_ok (update_phone old_phone new_phone self).2.
Proof.
  intros [Hph Hb]. rewrite update_phone_find.
  destruct (list_find _ _) as [[i x]|]; [|done].
  destruct (Phone new_phone) as [f|e] eqn:HP; [|done].
  apply Phone_Ok_inv in HP as [-> Hten]. split; [|done]. cbn.
  by apply Forall_insert.
Qed.

Lemma delete_phone_ok p self : record_ok self → record_ok (delete_phone p self).2.
Proof.
  intros [Hph Hb]. split; [|done]. cbn.
  rewrite list.Forall_forall in Hph |- *. intros f Hf.
  apply list_elem_of_filter in Hf as [_ Hf]. auto.
Qed.

Lemma Birthday_Ok_inv s f :
  Birthday s = Ok f → f = mkField s ∧ birthday_ok f.
Proof.
  intros H. destruct (Birthday_cases s) as [H'|H']; [|congruence].
  assert (f = mkField s) as -> by congruence. split; [done|].
  apply Birthday_Ok_iff in H' as [x Hx]. exists x. split; [done|].
  by eapply strptime_valid.
Qed.

Lemma set_birthday_ok b self : record_ok self → record_ok (set_birthday b self).2.
Proof.
  intros [Hph Hb]. destruct (Birthday b) as [f|e] eqn:HB.
  - rewrite (set_birthday_Ok _ _ _ HB). apply Birthday_Ok_inv in HB as [-> Hok].
    split; [done|]. cbn. by intros ? [= <-].
  - by rewrite (set_birthday_Raise _ _ _ HB).
Qed.

Lemma run_record_op_ok o self : record_ok self → record_ok (run_record_op o self).
Proof.
  destruct o; cbn [run_record_op];
    auto using add_phone_ok, update_phone_ok, delete_phone_ok, set_birthday_ok.
Qed.

Lemma build_record_ok n script : record_ok (build_record n script).
Proof.
  unfold build_record. generalize (Record_init_ok n).
  generalize (Record_init n). induction script as [|o script IH]; [done|].
  intros r Hr. cbn [fold_left]. by apply IH, run_record_op_ok.
Qed.

Lemma dict_get_values {V} k (d : dict V) v : dict_get k d = Some v → v ∈ values d.
Proof.
  unfold values. induction d as [|[k0 v0] d IH]; cbn; [done|].
  case_bool_decide.
  - intros [= ->]. apply list_elem_of_here.
  - intros H'. apply list_elem_of_further. auto.
Qed.

Lemma dict_set_ok k r book :
  book_ok book → record_ok r → book_ok (dict_set k r book).
Proof.
  unfold book_ok. rewrite !list.Forall_forall. intros Hbook Hr x Hx.
  apply values_dict_set_elem in Hx as [->|Hx]; auto.
Qed.

Lemma on_record_ok {A} n (method : Eff.M RecordObj A) book :
  (∀ self, record_ok self → record_ok (method self).2) →
  book_ok book → book_ok (on_record n method book).2.
Proof.
  intros Hm Hbook. unfold on_record.
  destruct (dict_get n book) as [r|] eqn:Hget; [|done].
  specialize (Hm r). destruct (method r) as [out r']. cbn in *.
  apply dict_set_ok; [done|]. apply Hm.
  unfold book_ok in Hbook. rewrite list.Forall_forall in Hbook.
  by eapply Hbook, dict_get_values.
Qed.

Lemma remove_record_ok n book : book_ok book → book_ok (remove_record n book).2.
Proof.
  intros Hbook. unfold remove_record, bindM, get, put, ret.
  pose proof (dict_pop_sublist n book) as Hsub.
  destruct (dict_pop n book) as [found book']. cbn in *.
  unfold book_ok in *. rewrite list.Forall_forall in Hbook |- *.
  intros x Hx. apply Hbook. eapply elem_of_sublist; [exact Hx|].
  unfold values. clear -Hsub.
  induction Hsub as [|kv l1 l2 _ IH|kv l1 l2 _ IH]; cbn [map].
  - constructor.
  - by apply sublist_skip.
  - by apply sublist_cons.
Qed.

Lemma run_book_op_ok (book : AddressBook) (o : book_op) :
  book_ok book → book_ok (run_book_op o book).
Proof.
  intros Hbook. destruct o as [n [p|old_phone new_phone|p|b]|n script|n];
    cbn [run_book_op].
  - apply on_record_ok; [|done]. intros self. apply add_phone_ok.
  - apply on_record_ok; [|done]. intros self. apply update_phone_ok.
  - apply on_record_ok; [|done]. intros self. apply delete_phone_ok.
  - apply on_record_ok; [|done]. intros self. apply set_birthday_ok.
  - rewrite add_record_run. cbn [snd]. apply dict_set_ok; [done|].
    apply build_record_ok.
  - by apply remove_record_ok.
Qed.

(** C8, amended: every call on a record or on the book keeps the book such
    that each stored phone is a string of ten digit characters and each
    stored birthday is a text that [strptime] reads as a date of the
    calendar, whether the call succeeds or raises. *)
Theorem book_operations_keep_fields_valid (book : AddressBook) (o : book_op) :
  book_ok book → book_ok (run_book_op o book).
Proof. apply run_book_op_ok. Qed.

Lemma book_of_bob_ok : book_ok book_of_bob.
Proof.
  unfold book_ok, book_of_bob. cbn. constructor; [|constructor]. split; cbn.
  - constructor; [|constructor]. apply Phone_Ok_iff. reflexivity.
  - intros b [=].
Qed.

Lemma book_operations_keep_fields_valid_witness :
  book_ok book_of_bob
  ∧ book_ok (run_book_op (OnRecord (py "Bob") (OpSetBirthday (py "20.05.2024")))
               book_of_bob).
Proof.
  split; [exact book_of_bob_ok|].
  apply book_operations_keep_fields_valid. exact book_of_bob_ok.
Defined.

(** C8, as stated, fails: [set_birthday] stores the text as it was typed,
    and a day and a month written on one digit are read by [strptime]; the
    stored birthday has eight characters and is no DD.MM.YYYY. *)
Lemma set_birthday_stores_text_that_is_no_DD_MM_YYYY :
  book_ok book_of_bob
  ∧ run_book_op (OnRecord (py "Bob") (OpSetBirthday (py "1.1.2024"))) book_of_bob
    = [(py "Bob",
        mkRecord (Name (py "Bob")) [mkField (py "1234567890")]
          (Some (mkField (py "1.1.2024"))))]
  ∧ length (py "1.1.2024") = 8%nat
  ∧ ∀ y m d, py "1.1.2024" ≠ DD_MM_YYYY y m d.
Proof.
  split; [exact book_of_bob_ok|]. split; [vm_compute; reflexivity|].
  split; [reflexivity|].
  intros y m d H. apply (f_equal (@length char)) in H.
  rewrite DD_MM_YYYY_length in H. discriminate.
Qed.

(** *** One record per name *)

Lemma run_record_op_name o self : name (run_record_op o self) = name self.
Proof.
  destruct o as [p|old_phone new_phone|p|b]; cbn [run_record_op].
  - destruct (Phone p) as [f|e] eqn:HP.
    + by rewrite (add_phone_Ok _ _ _ HP).
    + by rewrite (add_phone_Raise _ _ _ HP).
  - rewrite update_phone_find. destruct (list_find _ _) as [[i x]|]; [|done].
    by destruct (Phone new_phone).
  - done.
  - destruct (Birthday b) as [f|e] eqn:HB.
    + by rewrite (set_birthday_Ok _ _ _ HB).
    + by rewrite (set_birthday_Raise _ _ _ HB).
Qed.

Lemma build_record_name n script : value (name (build_record n script)) = n.
Proof.
  unfold build_record.
  assert (value (name (Record_init n)) = n) as H by done. revert H.
  generalize (Record_init n). induction script as [|o script IH]; [done|].
  intros r Hr. cbn [fold_left]. apply IH. by rewrite run_record_op_name.
Qed.

Lemma dict_set_keyed k r book :
  keyed_by_name book → value (name r) = k → keyed_by_name (dict_set k r book).
Proof.
  intros [Hnd Hall] Hr. split; [by apply keys_dict_set_NoDup|].
  clear Hnd. induction book as [|[k0 r0] book IH]; cbn [dict_set].
  - by repeat constructor.
  - apply list.Forall_cons in Hall as [H0 Hall]. case_bool_decide as Hk.
    + constructor; [|done]. cbn in *. congruence.
    + constructor; [done|auto].
Qed.

Lemma dict_get_elem {V} k (d : dict V) v : dict_get k d = Some v → (k, v) ∈ d.
Proof.
  induction d as [|[k0 v0] d IH]; cbn [dict_get]; [done|].
  case_bool_decide as Hk.
  - intros [= ->]. subst. apply list_elem_of_here.
  - intros H. apply list_elem_of_further. auto.
Qed.

Lemma on_record_keyed {A} n (method : Eff.M RecordObj A) book :
  (∀ self, name (method self).2 = name self) →
  keyed_by_name book → keyed_by_name (on_record n method book).2.
Proof.
  intros Hm Hbook. unfold on_record.
  destruct (dict_get n book) as [r|] eqn:Hget; [|done].
  specialize (Hm r). destruct (method r) as [out r']. cbn [snd] in *.
  apply dict_set_keyed; [done|]. rewrite Hm.
  destruct Hbook as [_ Hall]. rewrite list.Forall_forall in Hall.
  by apply (Hall (n, r)), dict_get_elem.
Qed.

Lemma run_book_op_keyed book o :
  keyed_by_name book → keyed_by_name (run_book_op o book).
Proof.
  intros Hbook. destruct o as [n o|n script|n].
  - pose proof (run_record_op_name o) as Hname.
    destruct o; cbn [run_book_op run_record_op] in *;
      by apply on_record_keyed.
  - cbn [run_book_op]. rewrite add_record_run. cbn [snd].
    apply dict_set_keyed; [done|]. by rewrite build_record_name.
  - cbn [run_book_op]. unfold remove_record, bindM, get, put, ret.
    pose proof (dict_pop_sublist n book) as Hsub.
    destruct (dict_pop n book) as [found book']. cbn [snd fst] in *.
    destruct Hbook as [Hnd Hall]. split.
    + eapply sublist_NoDup; [exact Hnd|]. unfold keys. clear -Hsub.
      induction Hsub as [|kv l1 l2 _ IH|kv l1 l2 _ IH]; cbn [map].
      * constructor.
      * by apply sublist_skip.
      * by apply sublist_cons.
    + rewrite list.Forall_forall in Hall |- *. intros kv Hkv.
      apply Hall. by eapply elem_of_sublist.
Qed.

Lemma keyed_by_name_names book : keyed_by_name book → NoDup (names book).
Proof.
  intros [Hnd Hall].
  assert (names book = keys book) as ->; [|done].
  unfold names, values, keys. clear Hnd.
  induction Hall as [|[k r] book Hkr _ IH]; [done|].
  cbn [map fst snd] in *. by rewrite Hkr, IH.
Qed.

(** Every book built from the empty one by such calls holds one record per
    name. *)
Lemma reachable_book_names (ops : list book_op) :
  NoDup (names (fold_left (λ book o, run_book_op o book) ops [])).
Proof.
  apply keyed_by_name_names.
  assert (keyed_by_name []) as H by (split; constructor). revert H.
  generalize ([] : AddressBook). induction ops as [|o ops IH]; [done|].
  intros book Hbook. cbn [fold_left]. by apply IH, run_book_op_keyed.
Qed.

(** Every book built from the empty one by such calls is valid. *)
Lemma reachable_book_ok (ops : list book_op) :
  book_ok (fold_left (λ book o, run_book_op o book) ops []).
Proof.
  assert (book_ok []) as H by constructor. revert H.
  generalize ([] : AddressBook). induction ops as [|o ops IH]; [done|].
  intros book Hbook. cbn [fold_left]. by apply IH, run_book_op_ok.
Qed.

End Invariant.

(** ** Upcoming birthdays *)

Section Upcoming.
Import Py Eff Datetime Main.
Local Open Scope Z_scope.

Lemma anchored_valid_iff today x :
  valid_date today → valid_date x →
  valid_date (anchored today x)
  ↔ day x <= _days_in_month (year today) (month x).
Proof.
  intros (Hy & _ & _) (_ & Hm & Hd). unfold valid_date, valid_ymd, anchored.
  cbn [year month day]. lia.
Qed.

Lemma replace_year_anchored today x :
  valid_date today → valid_date x →
  (valid_date (anchored today x) →
   replace_year x (year today) = Ok (anchored today x))
  ∧ (¬ valid_date (anchored today x) →
     replace_year x (year today) = Raise day_out_of_range).
Proof.
  intros Ht Hx. unfold replace_year. split.
  - intros Ha. by apply date_new_valid.
  - intros Ha. rewrite anchored_valid_iff in Ha by done.
    destruct Ht as (Hy & _ & _), Hx as (_ & Hm & _).
    apply date_new_day_out_of_range; [done|done|lia].
Qed.

Lemma weekend_shift a :
  valid_date a → 5 <= weekday a →
  ∃ r, date_add a (7 - weekday a) = Ok r ∧ valid_date r
       ∧ toordinal r = toordinal a + (7 - weekday a) ∧ weekday r = 0.
Proof.
  intros Ha Hw. pose proof (toordinal_range a Ha) as Hr.
  unfold _MAXORDINAL in Hr.
  assert (0 < toordinal a + (7 - weekday a) <= _MAXORDINAL) as Hin.
  { unfold weekday, _MAXORDINAL in *. lia. }
  destruct (date_add_in_range a _ Hin) as (r & Hadd & Hv & Hord).
  exists r. split; [done|]. split; [done|]. split; [done|].
  unfold weekday in *. rewrite Hord. lia.
Qed.

Lemma shifted_exists a :
  valid_date a →
  ∃ r, shifted a r
       ∧ (if 5 <=? weekday a then date_add a (7 - weekday a) else Ok a) = Ok r.
Proof.
  intros Ha. destruct (Z.leb_spec 5 (weekday a)) as [Hw|Hw].
  - destruct (weekend_shift a Ha Hw) as (r & Hadd & Hv & Hord & Hmon).
    exists r. split; [|done]. split; [done|]. split; [done|lia].
  - exists a. split; [|done]. split; [done|]. split; [lia|done].
Qed.

(** What one turn of the loop does with a record that has a birthday. *)
Lemma upcoming_birthdays_step_birthday today record res b x :
  valid_date today → birthday record = Some b → strptime (value b) = Ok x →
  let a := anchored today x in
  let step := upcoming_birthdays_step today record res in
  (¬ valid_date a → step = Raise day_out_of_range)
  ∧ (valid_date a → toordinal a < toordinal today → step = Ok res)
  ∧ (valid_date a → toordinal today <= toordinal a →
     _MAXORDINAL < toordinal today + 7 →
     step = Raise (OverflowError (py "date value out of range")))
  ∧ (valid_date a → toordinal today + 7 <= _MAXORDINAL →
     toordinal today + 7 < toordinal a → step = Ok res)
  ∧ (valid_date a → toordinal today + 7 <= _MAXORDINAL → in_window today a →
     ∃ r, shifted a r
          ∧ step = Ok (res ++ [mkItem (value (name record)) (strftime r)])).
Proof.
  intros Ht Hb Hs a step. subst step. unfold upcoming_birthdays_step.
  rewrite Hb, Hs. cbn [bind].
  pose proof (strptime_valid _ _ Hs) as Hx.
  destruct (replace_year_anchored today x Ht Hx) as [Hok Hbad]. fold a in Hok, Hbad.
  pose proof (toordinal_range today Ht) as Hrt.
  split; [intros Ha; by rewrite (Hbad Ha)|].
  split; [|split; [|split]]; intros Ha; rewrite (Hok Ha); cbn [bind].
  - intros Hlt.
    assert (date_le today a = false) as ->; [|done].
    apply not_true_is_false. rewrite date_le_toordinal by done. lia.
  - intros Hle Hover.
    rewrite (proj2 (date_le_toordinal today a Ht Ha)) by done.
    rewrite date_add_overflow by lia. done.
  - intros Hmax Hgt.
    destruct (date_le today a) eqn:Hle; [|done].
    destruct (date_add_in_range today 7) as (limit & -> & Hl & Hol); [lia|].
    cbn [bind].
    assert (date_le a limit = false) as ->; [|done].
    apply not_true_is_false. rewrite date_le_toordinal by done. lia.
  - intros Hmax [Hlo Hhi].
    rewrite (proj2 (date_le_toordinal today a Ht Ha)) by done.
    destruct (date_add_in_range today 7) as (limit & -> & Hl & Hol); [lia|].
    cbn [bind].
    rewrite (proj2 (date_le_toordinal a limit Ha Hl)) by lia.
    destruct (shifted_exists a Ha) as (r & Hr & ->). cbn [bind]. eauto.
Qed.

Lemma upcoming_birthdays_step_Ok today record res out :
  valid_date today →
  upcoming_birthdays_step today record res = Ok out →
  ∃ part, entry_of today record part ∧ out = res ++ part.
Proof.
  intros Ht Hstep. destruct (birthday record) as [b|] eqn:Hb.
  2:{ unfold upcoming_birthdays_step in Hstep. rewrite Hb in Hstep.
      injection Hstep as <-. exists []. split; [by constructor|].
      by rewrite app_nil_r. }
  destruct (strptime (value b)) as [x|e] eqn:Hs.
  2:{ unfold upcoming_birthdays_step in Hstep. rewrite Hb, Hs in Hstep.
      discriminate. }
  destruct (upcoming_birthdays_step_birthday today record res b x Ht Hb Hs)
    as (Hbad & Hbefore & Hover & Hafter & Hin).
  pose proof (strptime_valid _ _ Hs) as Hx.
  set (a := anchored today x) in *.
  destruct (decide (day x <= _days_in_month (year today) (month x))) as [Hd|Hd].
  2:{ rewrite Hbad in Hstep; [discriminate|].
      unfold a. by rewrite anchored_valid_iff. }
  assert (valid_date a) as Ha by (unfold a; by rewrite anchored_valid_iff).
  destruct (decide (toordinal a < toordinal today)) as [Hlt|Hge].
  { rewrite Hbefore in Hstep by done. injection Hstep as <-.
    exists []. split; [|by rewrite app_nil_r].
    eapply entry_outside; [done..|]. unfold in_window. fold a. lia. }
  destruct (decide (toordinal today + 7 <= _MAXORDINAL)) as [Hmax|Hmax].
  2:{ rewrite Hover in Hstep by (done || lia). discriminate. }
  destruct (decide (toordinal today + 7 < toordinal a)) as [Hgt|Hle].
  { rewrite Hafter in Hstep by done. injection Hstep as <-.
    exists []. split; [|by rewrite app_nil_r].
    eapply entry_outside; [done..|]. unfold in_window. fold a. lia. }
  destruct (Hin Ha Hmax) as (r & Hr & Heq); [unfold in_window; lia|].
  rewrite Heq in Hstep. injection Hstep as <-.
  eexists. split; [|done]. eapply entry_inside; [done..| |done].
  unfold in_window. fold a. lia.
Qed.

Lemma upcoming_birthdays_loop_Ok today records res out :
  valid_date today →
  upcoming_birthdays_loop today records res = Ok out →
  ∃ parts, Forall2 (entry_of today) records parts ∧ out = res ++ concat parts.
Proof.
  intros Ht. revert res. induction records as [|record records IH]; intros res.
  - intros [= <-]. exists []. split; [constructor|]. by rewrite app_nil_r.
  - cbn [upcoming_birthdays_loop].
    destruct (upcoming_birthdays_step today record res) as [res'|] eqn:Hstep;
      [|discriminate].
    cbn [bind]. intros Hloop.
    apply upcoming_birthdays_step_Ok in Hstep as (part & Hpart & ->); [|done].
    apply IH in Hloop as (parts & Hparts & ->).
    exists (part :: parts). split; [by constructor|].
    cbn [concat]. by rewrite app_assoc.
Qed.

Lemma entry_of_names today record part it :
  entry_of today record part → it ∈ part →
  part = [it] ∧ item_name it = value (name record).
Proof.
  intros [Hb|b x Hb Hs Ha Hout|b x r Hb Hs Ha Hin Hr] Hit.
  - by apply not_elem_of_nil in Hit.
  - by apply not_elem_of_nil in Hit.
  - apply list_elem_of_singleton in Hit as ->. done.
Qed.

Lemma entries_names today records parts it :
  Forall2 (entry_of today) records parts → it ∈ concat parts →
  item_name it ∈ map (λ r, value (name r)) records.
Proof.
  induction 1 as [|record part records parts Hpart _ IH]; cbn [concat map].
  - intros Hit. by apply not_elem_of_nil in Hit.
  - rewrite elem_of_app. intros [Hit|Hit].
    + destruct (entry_of_names _ _ _ _ Hpart Hit) as [_ ->].
      apply list_elem_of_here.
    + apply list_elem_of_further. auto.
Qed.

(** With one record per name, an entry that bears the name of a record is
    the entry of that record. *)
Lemma entries_of_record today records parts record it :
  Forall2 (entry_of today) records parts →
  NoDup (map (λ r, value (name r)) records) →
  record ∈ records → it ∈ concat parts →
  item_name it = value (name record) →
  entry_of today record [it].
Proof.
  induction 1 as [|record0 part records parts Hpart Hparts IH];
    cbn [concat map]; intros Hnd Hrec Hit Hname.
  - by apply not_elem_of_nil in Hrec.
  - apply list.NoDup_cons in Hnd as [Hfresh Hnd].
    apply elem_of_cons in Hrec. apply elem_of_app in Hit.
    destruct Hit as [Hit|Hit].
    + destruct (entry_of_names _ _ _ _ Hpart Hit) as [-> Hname0].
      destruct Hrec as [->|Hrec]; [done|].
      destruct Hfresh. rewrite <- Hname0, Hname.
      apply list_elem_of_In, (in_map (λ r, value (name r))), list_elem_of_In,
        Hrec.
    + destruct Hrec as [->|Hrec]; [|by apply IH].
      destruct Hfresh. rewrite <- Hname. by eapply entries_names.
Qed.




Ltac solve_valid_date :=
  unfold valid_date, valid_ymd; vm_compute; repeat split; discriminate.



Lemma year_toordinal_mono a r :
  valid_date a → valid_date r → toordinal a <= toordinal r → year a <= year r.
Proof.
  intros Ha Hr Hle. destruct (Z.le_gt_cases (year a) (year r)) as [|Hgt]; [done|].
  assert (lex_lt r a) as Hlt by (left; lia).
  pose proof (toordinal_lex r a Hr Ha Hlt). lia.
Qed.

(** C2: whenever [upcoming_birthdays] returns its list, the entry of a
    record carries the moved birthday itself when that day is a Monday to a
    Friday, and the Monday after it, [7 - weekday] days on, when it is a
    Saturday or a Sunday; the date is written DD.MM.YYYY.  The record is in
    the window by its moved birthday: where the reported Monday lies plays
    no part. *)
Theorem upcoming_birthdays_reports_next_monday
    (today : date) (book : AddressBook) (res : list item)
    (record : RecordObj) (it : item) :
  valid_date today → NoDup (names book) →
  upcoming_birthdays today book = Ok res →
  record ∈ values book → it ∈ res → item_name it = value (name record) →
  ∃ b x r,
    birthday record = Some b ∧ strptime (value b) = Ok x
    ∧ in_window today (anchored today x)
    ∧ valid_date r
    ∧ item_birthday it = strftime r
    ∧ (weekday (anchored today x) = 5 ∨ weekday (anchored today x) = 6 →
       toordinal r
       = toordinal (anchored today x) + (7 - weekday (anchored today x))
       ∧ weekday r = 0)
    ∧ (weekday (anchored today x) < 5 → r = anchored today x)
    ∧ (1000 <= year today →
       item_birthday it = DD_MM_YYYY (year r) (month r) (day r)).
Proof.
  intros Ht Hnd Hres Hrec Hit Hname. unfold upcoming_birthdays in Hres.
  apply upcoming_birthdays_loop_Ok in Hres as (parts & Hparts & ->); [|done].
  cbn [app] in Hit.
  pose proof (entries_of_record _ _ _ _ _ Hparts Hnd Hrec Hit Hname) as Hentry.
  inversion Hentry as [| |b x r Hb Hs Ha Hin Hr Heq].
  destruct Hr as (Hvr & Hweekend & Hweek).
  exists b, x, r. cbn [item_birthday].
  split; [done|]. split; [done|]. split; [done|]. split; [done|].
  split; [done|]. split; [intros [H5|H6]; apply Hweekend; lia|].
  split; [done|]. intros Hy. apply strftime_DD_MM_YYYY.
  assert (toordinal (anchored today x) <= toordinal r) as Hle.
  { pose proof (weekday_range (anchored today x)).
    destruct (Z.le_gt_cases 5 (weekday (anchored today x))) as [H5|H5].
    - destruct (Hweekend H5) as [-> _]. lia.
    - rewrite (Hweek H5). lia. }
  pose proof (year_toordinal_mono _ _ Ha Hvr Hle) as Hyr.
  cbn [anchored year] in Hyr. destruct Hvr as (Hyr' & _). unfold MAXYEAR in Hyr'.
  lia.
Qed.

Lemma upcoming_birthdays_reports_next_monday_witness :
  upcoming_birthdays saturday_11_may_2024 [(py "Bob", bob_18_may)]
  = Ok [mkItem (py "Bob") (py "20.05.2024")]
  ∧ ∃ r, py "20.05.2024" = strftime r
         ∧ weekday r = 0
         ∧ toordinal saturday_11_may_2024 + 7 < toordinal r.
Proof.
  set (today := saturday_11_may_2024).
  set (res := [mkItem (py "Bob") (py "20.05.2024")]).
  assert (valid_date today) as Ht by solve_valid_date.
  assert (NoDup (names [(py "Bob", bob_18_may)])) as Hnd.
  { apply NoDup_cons_2; [apply not_elem_of_nil|apply NoDup_nil_2]. }
  assert (upcoming_birthdays today [(py "Bob", bob_18_may)] = Ok res) as Hres
    by (vm_compute; reflexivity).
  split; [exact Hres|].
  destruct (upcoming_birthdays_reports_next_monday today _ res bob_18_may
              (mkItem (py "Bob") (py "20.05.2024")) Ht Hnd Hres
              (list_elem_of_here _ _) (list_elem_of_here _ _) eq_refl)
    as (b & x & r & Hb & Hs & _ & _ & Hfmt & Hweekend & _).
  injection Hb as <-. vm_compute in Hs. injection Hs as <-.
  destruct Hweekend as [Hord Hmon]; [left; vm_compute; reflexivity|].
  exists r. split; [exact Hfmt|]. split; [exact Hmon|].
  rewrite Hord. vm_compute. reflexivity.
Defined.

(** A turn of the loop either goes on or fails on a day that the year of
    [today] does not have. *)
Lemma upcoming_birthdays_step_cases today record res :
  valid_date today → toordinal today + 7 <= _MAXORDINAL → record_ok record →
  (∃ out, upcoming_birthdays_step today record res = Ok out)
  ∨ upcoming_birthdays_step today record res = Raise day_out_of_range.
Proof.
  intros Ht Hmax [_ Hok]. destruct (birthday record) as [b|] eqn:Hb.
  2:{ left. unfold upcoming_birthdays_step. rewrite Hb. by eexists. }
  destruct (Hok b eq_refl) as (x & Hs & Hx).
  destruct (upcoming_birthdays_step_birthday today record res b x Ht Hb Hs)
    as (Hbad & Hbefore & _ & Hafter & Hin).
  destruct (decide (day x <= _days_in_month (year today) (month x))) as [Hd|Hd].
  2:{ right. apply Hbad. by rewrite anchored_valid_iff. }
  assert (valid_date (anchored today x)) as Ha by by rewrite anchored_valid_iff.
  left.
  destruct (decide (toordinal (anchored today x) < toordinal today)) as [?|?];
    [rewrite Hbefore by done; by eexists|].
  destruct (decide (toordinal today + 7 < toordinal (anchored today x)))
    as [?|?]; [rewrite Hafter by done; by eexists|].
  destruct (Hin Ha Hmax) as (r & _ & ->); [unfold in_window; lia|].
  by eexists.
Qed.

Lemma upcoming_birthdays_loop_raises today records res record b x :
  valid_date today → toordinal today + 7 <= _MAXORDINAL →
  Forall record_ok records →
  record ∈ records → birthday record = Some b → strptime (value b) = Ok x →
  ¬ valid_date (anchored today x) →
  upcoming_birthdays_loop today records res = Raise day_out_of_range.
Proof.
  intros Ht Hmax Hall Hrec Hb Hs Hbad. revert res.
  induction Hall as [|record0 records Hok0 Hall IH]; intros res.
  - by apply not_elem_of_nil in Hrec.
  - cbn [upcoming_birthdays_loop].
    destruct (upcoming_birthdays_step_cases today record0 res Ht Hmax Hok0)
      as [[out Hstep]|Hstep]; rewrite Hstep; cbn [bind]; [|done].
    apply elem_of_cons in Hrec as [->|Hrec]; [|by apply IH].
    destruct (upcoming_birthdays_step_birthday today record0 res b x Ht Hb Hs)
      as (Hraise & _). rewrite Hraise in Hstep by done. discriminate.
Qed.

Lemma february_29_not_anchored today x :
  month x = 2 → day x = 29 → _is_leap (year today) = false →
  ¬ valid_date (anchored today x).
Proof.
  intros Hm Hd Hleap (_ & _ & Hday). cbn [anchored year month day] in Hday.
  rewrite days_in_month_flag, Hm, Hd, Hleap in Hday.
  vm_compute in Hday. destruct Hday as [_ Hday]. by apply Hday.
Qed.

(** C9: [upcoming_birthdays] does not always return: with a stored birthday
    on 29 February and a year of [today] that is not a leap year, moving the
    birthday to that year raises a [ValueError], no list is returned, and
    the [birthdays] handler answers with the text of the error after
    "Error: " instead of a list of birthdays. *)
Theorem upcoming_birthdays_fails_on_29_february
    (today : date) (book : AddressBook) (record : RecordObj) (b : Field)
    (x : date) :
  valid_date today → toordinal today + 7 <= _MAXORDINAL → book_ok book →
  record ∈ values book → birthday record = Some b →
  strptime (value b) = Ok x → month x = 2 → day x = 29 →
  _is_leap (year today) = false →
  upcoming_birthdays today book
  = Raise (ValueError (py "day is out of range for month"))
  ∧ birthdays today book
    = (Ok (py "Error: " ++ py "day is out of range for month"), book).
Proof.
  intros Ht Hmax Hbook Hrec Hb Hs Hm Hd Hleap.
  assert (upcoming_birthdays today book = Raise day_out_of_range) as Hup.
  { unfold upcoming_birthdays.
    eapply upcoming_birthdays_loop_raises; [done..|].
    by apply february_29_not_anchored. }
  split; [exact Hup|].
  unfold birthdays, input_error, bindM, get, lift. by rewrite Hup.
Qed.

Lemma upcoming_birthdays_fails_on_29_february_witness :
  upcoming_birthdays saturday_25_february_2023 book_of_bob_and_al
  = Raise (ValueError (py "day is out of range for month"))
  ∧ birthdays saturday_25_february_2023 book_of_bob_and_al
    = (Ok (py "Error: day is out of range for month"), book_of_bob_and_al).
Proof.
  set (today := saturday_25_february_2023). set (book := book_of_bob_and_al).
  assert (valid_date today) as Ht by solve_valid_date.
  assert (toordinal today + 7 <= _MAXORDINAL) as Hmax
    by (vm_compute; discriminate).
  assert (book_ok book) as Hbook.
  { unfold book_ok, book. cbn [values map snd].
    repeat (constructor; [split; cbn;
      [constructor; [apply Phone_Ok_iff; reflexivity|constructor]
      |intros ? [= <-]; eexists; split;
         [vm_compute; reflexivity|solve_valid_date]]|]).
    constructor. }
  assert (al_29_february ∈ values book) as Hrec.
  { apply list_elem_of_further, list_elem_of_here. }
  exact (upcoming_birthdays_fails_on_29_february today book al_29_february
           (mkField (py "29.02.2024")) (mkdate 2024 2 29) Ht Hmax Hbook Hrec
           eq_refl eq_refl eq_refl eq_refl eq_refl).
Defined.

End Upcoming.

(** * Further properties of the program *)

(** ** The methods of a record *)

Section RecordMethods.
Import Py Eff Datetime Main.
Implicit Types (self : RecordObj) (s : pystr).

Lemma with_phones_same self : with_phones self (phones self) = self.
Proof. by destruct self. Qed.

Lemma filter_all {A} (P : A → Prop) `{∀ x, Decision (P x)} (l : list A) :
  Forall P l → filter P l = l.
Proof.
  induction 1 as [|x l Hx _ IH]; [done|].
  by rewrite filter_cons_True, IH.
Qed.

Lemma filter_sublist {A} (P : A → Prop) `{∀ x, Decision (P x)} (l : list A) :
  filter P l `sublist_of` l.
Proof.
  induction l as [|x l IH]; [done|].
  destruct (decide (P x)).
  - rewrite filter_cons_True by done. by apply sublist_skip.
  - rewrite filter_cons_False by done. by apply sublist_cons.
Qed.

Lemma filter_filter_other (v p : pystr) (l : list Field) :
  v ≠ p →
  filter (λ f, value f = v) (filter (λ f, value f ≠ p) l)
  = filter (λ f, value f = v) l.
Proof.
  intros Hne. induction l as [|f l IH]; [done|].
  destruct (decide (value f = p)) as [Hp|Hp].
  - rewrite (filter_cons_False (λ f, value f ≠ p)) by tauto.
    rewrite (filter_cons_False (λ f, value f = v)) by congruence. done.
  - rewrite (filter_cons_True (λ f, value f ≠ p)) by done.
    destruct (decide (value f = v)) as [Hv|Hv].
    + rewrite !(filter_cons_True (λ f, value f = v)) by done. by rewrite IH.
    + rewrite !(filter_cons_False (λ f, value f = v)) by done. done.
Qed.

(** X1: [delete_phone] never raises.  It takes away every entry equal to
    the given number and keeps every other entry, as often as it was there
    and in the order it was in: the phones are those of before with the
    entries equal to the number struck out.  The name and the birthday
    stay; when no entry equals the number the record is as before. *)
Theorem delete_phone_removes_every_match self (phone_value : pystr) :
  ∃ self',
    delete_phone phone_value self = (Ok tt, self')
    ∧ name self' = name self ∧ birthday self' = birthday self
    ∧ phones self' = filter (λ f, value f ≠ phone_value) (phones self)
    ∧ (∀ f, f ∈ phones self' ↔ f ∈ phones self ∧ value f ≠ phone_value)
    ∧ (∀ v, v ≠ phone_value →
         length (filter (λ f, value f = v) (phones self'))
         = length (filter (λ f, value f = v) (phones self)))
    ∧ phones self' `sublist_of` phones self
    ∧ ((∀ f, f ∈ phones self → value f ≠ phone_value) → self' = self).
Proof.
  eexists. split; [reflexivity|]. cbn [name birthday phones with_phones].
  split; [done|]. split; [done|]. split; [done|].
  split; [intros f; rewrite list_elem_of_filter; tauto|].
  split; [intros v Hv; by rewrite filter_filter_other|].
  split; [apply filter_sublist|].
  intros Hnone. rewrite filter_all; [apply with_phones_same|].
  by apply list.Forall_forall.
Qed.

Lemma delete_phone_removes_every_match_witness :
  delete_phone (py "2222222222") bob_three_phones
  = (Ok tt,
     mkRecord (Name (py "Bob"))
       [mkField (py "1111111111"); mkField (py "1111111111")] None).
Proof.
  destruct (delete_phone_removes_every_match bob_three_phones
              (py "2222222222")) as (self' & Hrun & _ & _ & Hphones & _).
  rewrite Hrun. f_equal. destruct self' as [n ps b].
  cbn [phones] in Hphones. subst ps.
  injection Hrun as <- <-. reflexivity.
Defined.

(** X2: [add_phone] with a number of ten digit characters puts it at the end
    of the phones and keeps what was there, an equal number included: the
    same number added twice is there twice.  With any other text it raises
    the "must be 10 digits" error and the record is as before. *)
Theorem add_phone_appends_or_leaves_unchanged self (phone_value : pystr) :
  (ten_digits phone_value →
     add_phone phone_value self
     = (Ok tt, mkRecord (name self) (phones self ++ [mkField phone_value])
                        (birthday self))
     ∧ phones (add_phone phone_value (add_phone phone_value self).2).2
       = phones self ++ [mkField phone_value; mkField phone_value])
  ∧ (¬ ten_digits phone_value →
     add_phone phone_value self = (Raise InvalidPhone, self)).
Proof.
  split.
  - intros Hten. apply Phone_Ok_iff in Hten as HP.
    rewrite !(add_phone_Ok _ _ _ HP). split; [done|].
    cbn. by rewrite <- app_assoc.
  - intros Hten. destruct (Phone_cases phone_value) as [HP|HP].
    + by apply Phone_Ok_iff in HP.
    + by rewrite (add_phone_Raise _ _ _ HP).
Qed.

Lemma add_phone_appends_or_leaves_unchanged_witness :
  add_phone (py "0987654321") bob_one_phone
  = (Ok tt,
     mkRecord (Name (py "Bob"))
       [mkField (py "1234567890"); mkField (py "0987654321")] None).
Proof.
  destruct (add_phone_appends_or_leaves_unchanged bob_one_phone
              (py "0987654321")) as [Hok _].
  apply Hok. apply Phone_Ok_iff. reflexivity.
Defined.

(** X3: [set_birthday] with a text that [strptime] reads replaces the
    birthday, whatever it was, and keeps the name and the phones; with any
    other text it raises the "Invalid date format" error and the record
    keeps the birthday it had. *)
Theorem set_birthday_replaces_or_leaves_unchanged self (b : pystr) :
  ((∃ x, strptime b = Ok x) →
     set_birthday b self
     = (Ok tt, mkRecord (name self) (phones self) (Some (mkField b))))
  ∧ ((∀ x, strptime b ≠ Ok x) →
     set_birthday b self = (Raise InvalidDateFormat, self)).
Proof.
  split.
  - intros Hx. apply Birthday_Ok_iff in Hx.
    by rewrite (set_birthday_Ok _ _ _ Hx).
  - intros Hx. destruct (Birthday_cases b) as [HB|HB].
    + apply Birthday_Ok_iff in HB as [x Hs]. by destruct (Hx x).
    + by rewrite (set_birthday_Raise _ _ _ HB).
Qed.

Lemma set_birthday_replaces_or_leaves_unchanged_witness :
  set_birthday (py "1.1.2024") bob_20_may
  = (Ok tt,
     mkRecord (Name (py "Bob")) [mkField (py "1234567890")]
       (Some (mkField (py "1.1.2024")))).
Proof.
  destruct (set_birthday_replaces_or_leaves_unchanged bob_20_may
              (py "1.1.2024")) as [Hok _].
  apply Hok. eexists. vm_compute. reflexivity.
Defined.

End RecordMethods.

(** ** Looking up and removing records *)

Section BookMethods.
Import Py Eff Datetime Main.
Implicit Types (book : AddressBook) (record : RecordObj).

Lemma dict_set_same {V} k (v : V) (d : dict V) :
  dict_get k d = Some v → dict_set k v d = d.
Proof.
  induction d as [|[k0 v0] d IH]; cbn [dict_get dict_set]; [done|].
  case_bool_decide as Hk.
  - by intros [= ->].
  - intros H. by rewrite IH.
Qed.

Lemma dict_set_absent {V} k (v : V) (d : dict V) :
  dict_get k d = None → dict_set k v d = d ++ [(k, v)].
Proof.
  induction d as [|[k0 v0] d IH]; cbn [dict_get dict_set app]; [done|].
  case_bool_decide as Hk; [done|]. intros H. by rewrite IH.
Qed.

Lemma dict_pop_absent {V} k (d : dict V) :
  dict_get k d = None → dict_pop k d = (None, d).
Proof.
  induction d as [|[k0 v0] d IH]; cbn [dict_get dict_pop]; [done|].
  case_bool_decide as Hk; [done|]. intros H. by rewrite IH.
Qed.

Lemma dict_pop_gone {V} k (d : dict V) :
  NoDup (keys d) → dict_get k (dict_pop k d).2 = None.
Proof.
  induction d as [|[k0 v0] d IH]; cbn [keys map fst dict_pop]; [done|].
  intros Hnd. apply list.NoDup_cons in Hnd as [Hk0 Hnd].
  case_bool_decide as Hk.
  - subst. cbn [snd]. by apply dict_get_None_keys.
  - specialize (IH Hnd). destruct (dict_pop k d) as [found d'].
    cbn [snd dict_get] in *. by rewrite bool_decide_eq_false_2.
Qed.

Lemma dict_pop_other {V} k k' (d : dict V) :
  k' ≠ k → dict_get k' (dict_pop k d).2 = dict_get k' d.
Proof.
  intros Hne. induction d as [|[k0 v0] d IH]; cbn [dict_pop dict_get]; [done|].
  case_bool_decide as Hk.
  - subst. cbn [snd]. by rewrite bool_decide_eq_false_2.
  - destruct (dict_pop k d) as [found d']. cbn [snd dict_get] in *.
    by rewrite IH.
Qed.

Lemma dict_pop_set_fresh {V} k (v : V) (d : dict V) :
  dict_get k d = None → dict_pop k (dict_set k v d) = (Some v, d).
Proof.
  induction d as [|[k0 v0] d IH]; cbn [dict_get dict_set dict_pop].
  - by rewrite bool_decide_eq_true_2.
  - case_bool_decide as Hk; [done|]. intros H. cbn [dict_pop].
    rewrite bool_decide_eq_false_2 by done. by rewrite IH.
Qed.

Lemma remove_record_run n book :
  remove_record n book = (Ok (dict_pop n book).1, (dict_pop n book).2).
Proof.
  unfold remove_record, bindM, get, put, ret. by destruct (dict_pop n book).
Qed.

(** X4: [remove_record] never raises.  It returns the record stored under
    the name, or [None]; afterwards the name is not found, every other name
    is found as before and the remaining records keep their order.  With a
    name that is not in the book, the book is as before, so that removing
    twice is removing once. *)
Theorem remove_record_removes_the_name book (n : pystr) :
  NoDup (keys book) →
  ∃ book',
    remove_record n book = (Ok (dict_get n book), book')
    ∧ dict_get n book' = None
    ∧ (∀ k, k ≠ n → dict_get k book' = dict_get k book)
    ∧ book' `sublist_of` book
    ∧ (dict_get n book = None → book' = book)
    ∧ remove_record n book' = (Ok None, book').
Proof.
  intros Hnd. exists (dict_pop n book).2.
  rewrite remove_record_run, dict_pop_get.
  assert (dict_get n (dict_pop n book).2 = None) as Hgone
    by by apply dict_pop_gone.
  split; [done|]. split; [done|].
  split; [intros k Hk; by apply dict_pop_other|].
  split; [apply dict_pop_sublist|].
  split; [intros Habs; by rewrite dict_pop_absent|].
  by rewrite remove_record_run, dict_pop_absent.
Qed.

Lemma remove_record_removes_the_name_witness :
  ∃ book',
    remove_record (py "Bob") book_of_bob_and_al
    = (Ok (Some bob_20_may), book')
    ∧ dict_get (py "Bob") book' = None.
Proof.
  assert (NoDup (keys book_of_bob_and_al)) as Hnd.
  { apply NoDup_cons_2.
    - intros H. apply list_elem_of_singleton in H. discriminate.
    - apply NoDup_cons_2; [apply not_elem_of_nil|apply NoDup_nil_2]. }
  destruct (remove_record_removes_the_name book_of_bob_and_al (py "Bob") Hnd)
    as (book' & Hrun & Hgone & _).
  exists book'. split; [exact Hrun|exact Hgone].
Defined.

(** X5: adding a record under a name that the book does not hold and then
    removing that name gives back the record and the book as it was. *)
Theorem add_record_then_remove_record book record :
  dict_get (value (name record)) book = None →
  remove_record (value (name record)) (add_record record book).2
  = (Ok (Some record), book).
Proof.
  intros Hfresh. rewrite add_record_run, remove_record_run. cbn [snd].
  by rewrite dict_pop_set_fresh.
Qed.

Lemma add_record_then_remove_record_witness :
  remove_record (py "Al") (add_record al_29_february book_of_bob).2
  = (Ok (Some al_29_february), book_of_bob).
Proof.
  exact (add_record_then_remove_record book_of_bob al_29_february eq_refl).
Defined.

End BookMethods.

(** ** The handlers that write to the book *)

Section WritingHandlers.
Import Py Eff Datetime Main.
Implicit Types (book : AddressBook) (record : RecordObj) (n : pystr).

Lemma on_record_run {A} n (method : Eff.M RecordObj A) book record out record' :
  dict_get n book = Some record → method record = (out, record') →
  on_record n method book = (out, dict_set n record' book).
Proof. intros Hget Hm. unfold on_record. by rewrite Hget, Hm. Qed.

Lemma add_contact_run n phone extra book :
  add_contact (n :: phone :: extra) book =
  input_error (
    match dict_get n book with
    | Some _ =>
        bindM (on_record n (add_phone phone))
              (λ _, ret (py "Phone added to " ++ n ++ py "."))
    | None =>
        let '(out, record) := add_phone phone (Record_init n) in
        bindM (lift out) (λ _,
        bindM (add_record record) (λ _,
        ret (py "Contact " ++ n ++ py " created.")))
    end) book.
Proof.
  unfold add_contact.
  change (unpack2 (take 2 (n :: phone :: extra))) with (Ok (n, phone)).
  cbv [input_error bindM lift search get ret]. by destruct (dict_get n book).
Qed.

(** X6: [add <name> <phone>] for a name that the book does not hold and a
    phone of ten digit characters puts a new record at the end of the book,
    with that name, that phone alone and no birthday; the reply says that
    the contact was created, and every record that was there is as before. *)
Theorem add_contact_creates_record book n (phone : pystr) (extra : list pystr) :
  dict_get n book = None → ten_digits phone →
  add_contact (n :: phone :: extra) book
  = (Ok (py "Contact " ++ n ++ py " created."),
     book ++ [(n, mkRecord (Name n) [mkField phone] None)]).
Proof.
  intros Hfresh Hten. apply Phone_Ok_iff in Hten as HP.
  rewrite add_contact_run, Hfresh, (add_phone_Ok _ _ _ HP).
  cbv [input_error bindM lift ret]. rewrite add_record_run.
  cbn [value name Record_init Name with_phones phones birthday app].
  by rewrite dict_set_absent.
Qed.

Lemma add_contact_creates_record_witness :
  add_contact [py "Al"; py "0987654321"] book_of_bob
  = (Ok (py "Contact " ++ py "Al" ++ py " created."),
     book_of_bob
     ++ [(py "Al", mkRecord (Name (py "Al")) [mkField (py "0987654321")] None)]).
Proof.
  assert (ten_digits (py "0987654321")) as Hten.
  { apply Phone_Ok_iff. reflexivity. }
  exact (add_contact_creates_record book_of_bob (py "Al") (py "0987654321") []
           eq_refl Hten).
Defined.

(** X7: [add] with a phone that is not made of ten digit characters answers
    with the "must be 10 digits" error and leaves the book as it was: the
    record of a known name is untouched and no record is made for a new
    name.  With fewer than two words after the command it answers with the
    error of the unpacking and leaves the book as it was. *)
Theorem add_contact_failure_changes_nothing book (args : list pystr) :
  (∀ n phone extra, args = n :: phone :: extra → ¬ ten_digits phone →
     add_contact args book
     = (Ok (py "Error: " ++ py "Phone number must be 10 digits."), book))
  ∧ ((length args < 2)%nat →
     ∃ msg, add_contact args book = (Ok (py "Error: " ++ msg), book)).
Proof.
  split.
  - intros n phone extra -> Hten.
    assert (Phone phone = Raise InvalidPhone) as HP.
    { destruct (Phone_cases phone) as [H|H]; [|done].
      by apply Phone_Ok_iff in H. }
    rewrite add_contact_run.
    destruct (dict_get n book) as [record|] eqn:Hget.
    + cbv [input_error bindM].
      rewrite (on_record_run n _ book record _ _ Hget (add_phone_Raise _ _ _ HP)).
      by rewrite (dict_set_same _ _ _ Hget).
    + by rewrite (add_phone_Raise _ _ _ HP).
  - intros Hlen. destruct args as [|a [|b args]]; cbn in Hlen; [| |lia];
      eexists; reflexivity.
Qed.

Lemma add_contact_failure_changes_nothing_witness :
  add_contact [py "Bob"; py "12345"] book_of_bob
  = (Ok (py "Error: Phone number must be 10 digits."), book_of_bob).
Proof.
  destruct (add_contact_failure_changes_nothing book_of_bob
              [py "Bob"; py "12345"]) as [Hbad _].
  apply (Hbad (py "Bob") (py "12345") [] eq_refl).
  intros [Hlen _]. discriminate Hlen.
Defined.

Lemma change_phone_run n old_phone new_phone book :
  change_phone [n; old_phone; new_phone] book =
  input_error (
    match dict_get n book with
    | Some _ =>
        bindM (on_record n (update_phone old_phone new_phone)) (λ updated,
        if (updated : bool)
        then ret (py "Phone number updated for " ++ n ++ py ".")
        else ret (py "Contact or phone not found."))
    | None => ret (py "Contact or phone not found.")
    end) book.
Proof.
  unfold change_phone. cbn [unpack3].
  cbv [input_error bindM lift search get ret]. by destruct (dict_get n book).
Qed.

(** X8: [change <name> <old> <new>].  For a name that the book does not hold
    the reply is "Contact or phone not found."; for a known name without the
    old number it is the "not found" error for that number; for a known
    name with the old number and a new number that is not valid it is the
    "must be 10 digits" error; in these three cases, and when the words
    after the command are not three, the book is as it was.  Otherwise the
    first entry equal to the old number is replaced in the record of that
    name and the reply says that the number was updated. *)
Theorem change_phone_outcomes book n (old_phone new_phone : pystr) :
  (dict_get n book = None →
     change_phone [n; old_phone; new_phone] book
     = (Ok (py "Contact or phone not found."), book))
  ∧ (∀ record, dict_get n book = Some record →
     (∀ ph, ph ∈ phones record → value ph ≠ old_phone) →
     change_phone [n; old_phone; new_phone] book
     = (Ok (py "Error: " ++ py "Phone number " ++ old_phone ++ py " not found."),
        book))
  ∧ (∀ record, dict_get n book = Some record →
     (∃ ph, ph ∈ phones record ∧ value ph = old_phone) → ¬ ten_digits new_phone →
     change_phone [n; old_phone; new_phone] book
     = (Ok (py "Error: " ++ py "Phone number must be 10 digits."), book))
  ∧ (∀ record i ph, dict_get n book = Some record →
     phones record !! i = Some ph → value ph = old_phone →
     (∀ j ph', (j < i)%nat → phones record !! j = Some ph' →
               value ph' ≠ old_phone) →
     ten_digits new_phone →
     change_phone [n; old_phone; new_phone] book
     = (Ok (py "Phone number updated for " ++ n ++ py "."),
        dict_set n (mkRecord (name record)
                             (<[i := mkField new_phone]> (phones record))
                             (birthday record)) book))
  ∧ (∀ args, length args ≠ 3%nat →
     ∃ msg, change_phone args book = (Ok (py "Error: " ++ msg), book)).
Proof.
  rewrite change_phone_run.
  split; [intros Hget; by rewrite Hget|].
  split; [|split; [|split]].
  - intros record Hget Hnone. rewrite Hget.
    assert (update_phone old_phone new_phone record
            = (Raise (PhoneNotFound old_phone), record)) as Hup.
    { rewrite update_phone_find.
      destruct (list_find _ _) as [[i ph]|] eqn:Hfind; [|done].
      apply list_find_Some in Hfind as (Hi & Hph & _).
      destruct (Hnone ph); [by eapply list_elem_of_lookup_2|done]. }
    cbv [input_error bindM].
    rewrite (on_record_run n _ book record _ _ Hget Hup).
    by rewrite (dict_set_same _ _ _ Hget).
  - intros record Hget Hsome Hten. rewrite Hget.
    assert (update_phone old_phone new_phone record
            = (Raise InvalidPhone, record)) as Hup.
    { rewrite update_phone_find.
      destruct (list_find _ _) as [[i ph]|] eqn:Hfind.
      - destruct (Phone_cases new_phone) as [H|H]; [|by rewrite H].
        by apply Phone_Ok_iff in H.
      - destruct Hsome as (ph & Hin & Hph).
        apply list_find_None in Hfind. rewrite list.Forall_forall in Hfind.
        by destruct (Hfind ph Hin). }
    cbv [input_error bindM].
    rewrite (on_record_run n _ book record _ _ Hget Hup).
    by rewrite (dict_set_same _ _ _ Hget).
  - intros record i ph Hget Hi Hph Hfirst Hten. rewrite Hget.
    assert (update_phone old_phone new_phone record
            = (Ok true, with_phones record
                          (<[i := mkField new_phone]> (phones record)))) as Hup.
    { rewrite update_phone_find.
      assert (list_find (λ ph, value ph = old_phone) (phones record)
              = Some (i, ph)) as ->.
      { apply list_find_Some. split; [done|]. split; [done|].
        intros j y Hj Hlt. by apply (Hfirst j). }
      apply Phone_Ok_iff in Hten. by rewrite Hten. }
    cbv [input_error bindM].
    by rewrite (on_record_run n _ book record _ _ Hget Hup).
  - intros args Hlen. unfold change_phone.
    destruct args as [|a [|b [|c [|d args]]]]; cbn in Hlen; try lia;
      eexists; reflexivity.
Qed.

Lemma change_phone_outcomes_witness :
  change_phone [py "Bob"; py "1111111111"; py "3333333333"]
    [(py "Bob", bob_three_phones)]
  = (Ok (py "Phone number updated for Bob."),
     [(py "Bob",
       mkRecord (Name (py "Bob"))
         [mkField (py "3333333333"); mkField (py "2222222222");
          mkField (py "1111111111")] None)]).
Proof.
  destruct (change_phone_outcomes [(py "Bob", bob_three_phones)] (py "Bob")
              (py "1111111111") (py "3333333333")) as (_ & _ & _ & Hok & _).
  apply (Hok bob_three_phones 0%nat (mkField (py "1111111111")));
    [reflexivity|reflexivity|reflexivity|intros j ph' Hj; lia|].
  apply Phone_Ok_iff. reflexivity.
Defined.

Lemma add_birthday_run n b book :
  add_birthday [n; b] book =
  input_error (
    match dict_get n book with
    | Some _ =>
        bindM (on_record n (set_birthday b))
              (λ _, ret (py "Birthday set for " ++ n ++ py "."))
    | None => ret (py "Contact not found.")
    end) book.
Proof.
  unfold add_birthday. cbn [unpack2].
  cbv [input_error bindM lift search get ret]. by destruct (dict_get n book).
Qed.

(** X9: [add-birthday <name> <date>].  For a name that the book does not
    hold the reply is "Contact not found."; for a known name and a text that
    [strptime] does not read it is the "Invalid date format" error; in both
    cases, and when the words after the command are not two, the book is as
    it was.  For a known name and a text that [strptime] reads, the
    birthday of that record is set to the text, whatever it was, the phones
    and every other record stay, and the reply says that the birthday was
    set. *)
Theorem add_birthday_outcomes book n (b : pystr) :
  (dict_get n book = None →
     add_birthday [n; b] book = (Ok (py "Contact not found."), book))
  ∧ (∀ record, dict_get n book = Some record → (∀ x, strptime b ≠ Ok x) →
     add_birthday [n; b] book
     = (Ok (py "Error: " ++ py "Invalid date format. Please use DD.MM.YYYY."),
        book))
  ∧ (∀ record, dict_get n book = Some record → (∃ x, strptime b = Ok x) →
     add_birthday [n; b] book
     = (Ok (py "Birthday set for " ++ n ++ py "."),
        dict_set n (mkRecord (name record) (phones record) (Some (mkField b)))
                 book))
  ∧ (∀ args, length args ≠ 2%nat →
     ∃ msg, add_birthday args book = (Ok (py "Error: " ++ msg), book)).
Proof.
  rewrite add_birthday_run.
  split; [intros Hget; by rewrite Hget|].
  split; [|split].
  - intros record Hget Hbad. rewrite Hget.
    assert (Birthday b = Raise InvalidDateFormat) as HB.
    { destruct (Birthday_cases b) as [H|H]; [|done].
      apply Birthday_Ok_iff in H as [x Hx]. by destruct (Hbad x). }
    cbv [input_error bindM].
    rewrite (on_record_run n _ book record _ _ Hget (set_birthday_Raise _ _ _ HB)).
    by rewrite (dict_set_same _ _ _ Hget).
  - intros record Hget Hok. rewrite Hget.
    apply Birthday_Ok_iff in Hok as HB.
    cbv [input_error bindM].
    by rewrite (on_record_run n _ book record _ _ Hget (set_birthday_Ok _ _ _ HB)).
  - intros args Hlen. unfold add_birthday.
    destruct args as [|a [|c [|d args]]]; cbn in Hlen; try lia;
      eexists; reflexivity.
Qed.

Lemma add_birthday_outcomes_witness :
  add_birthday [py "Bob"; py "1.1.2024"] book_of_bob
  = (Ok (py "Birthday set for Bob."),
     [(py "Bob",
       mkRecord (Name (py "Bob")) [mkField (py "1234567890")]
         (Some (mkField (py "1.1.2024"))))]).
Proof.
  destruct (add_birthday_outcomes book_of_bob (py "Bob") (py "1.1.2024"))
    as (_ & _ & Hok & _).
  apply (Hok bob_one_phone eq_refl).
  eexists. vm_compute. reflexivity.
Defined.

End WritingHandlers.

(** ** The handlers that read the book, and one turn of the loop *)

Section Commands.
Import Py Eff Datetime Main.
Local Open Scope Z_scope.
Implicit Types (book : AddressBook) (record : RecordObj) (n : pystr).

Lemma show_phones_run n extra book :
  show_phones (n :: extra) book =
  (Ok match dict_get n book with
      | Some record => n ++ py ": " ++ join (py ", ") (map value (phones record))
      | None => py "Contact not found."
      end, book).
Proof.
  unfold show_phones. cbv [input_error bindM lift first_arg search get ret].
  by destruct (dict_get n book).
Qed.

Lemma show_birthday_run n extra book :
  show_birthday (n :: extra) book =
  (Ok match dict_get n book with
      | Some record =>
          match birthday record with
          | Some b => n ++ py "'s birthday: " ++ value b
          | None => py "Birthday not set."
          end
      | None => py "Contact not found."
      end, book).
Proof.
  unfold show_birthday. cbv [input_error bindM lift first_arg search get ret].
  destruct (dict_get n book) as [record|]; [|done].
  by destruct (birthday record).
Qed.

(** What [add] leaves in the book when the phone is valid: the record of the
    name, or a new one, with the phone at the end of its list. *)
Lemma add_contact_valid n phone extra book :
  ten_digits phone →
  let record := default (Record_init n) (dict_get n book) in
  (add_contact (n :: phone :: extra) book).2
  = dict_set n (with_phones record (phones record ++ [mkField phone])) book.
Proof.
  intros Hten. apply Phone_Ok_iff in Hten as HP. rewrite add_contact_run.
  destruct (dict_get n book) as [record|] eqn:Hget; cbn [default].
  - cbv [input_error bindM].
    by rewrite (on_record_run n _ book record _ _ Hget (add_phone_Ok _ _ _ HP)).
  - by rewrite (add_phone_Ok _ _ _ HP).
Qed.

(** X10: after [add <name> <phone>] with a phone of ten digit characters,
    [phone <name>] answers with the name and the phones that the record had
    before, in their order and separated by a comma and a space, followed by
    the new phone; for a name that was not in the book the new phone is the
    only one.  [phone] leaves the book as [add] left it. *)
Theorem show_phones_after_add_contact book n (phone : pystr)
    (extra extra' : list pystr) :
  ten_digits phone →
  let before :=
    match dict_get n book with
    | Some record => map value (phones record)
    | None => []
    end in
  let book' := (add_contact (n :: phone :: extra) book).2 in
  show_phones (n :: extra') book'
  = (Ok (n ++ py ": " ++ join (py ", ") (before ++ [phone])), book').
Proof.
  intros Hten before book'. subst before book'.
  rewrite (add_contact_valid _ _ _ _ Hten), show_phones_run, dict_get_set_eq.
  cbn [phones with_phones]. rewrite map_app.
  by destruct (dict_get n book).
Qed.

Lemma show_phones_after_add_contact_witness :
  show_phones [py "Bob"]
    (add_contact [py "Bob"; py "0987654321"] book_of_bob).2
  = (Ok (py "Bob: 1234567890, 0987654321"),
     (add_contact [py "Bob"; py "0987654321"] book_of_bob).2).
Proof.
  assert (ten_digits (py "0987654321")) as Hten.
  { apply Phone_Ok_iff. reflexivity. }
  exact (show_phones_after_add_contact book_of_bob (py "Bob") (py "0987654321")
           [] [] Hten).
Defined.

(** X11: after [add-birthday <name> <date>] for a name of the book and a text
    that [strptime] reads, [show-birthday <name>] answers with that very
    text, as it was typed, and leaves the book as it is. *)
Theorem show_birthday_after_add_birthday book n (b : pystr)
    (extra : list pystr) :
  (∃ record, dict_get n book = Some record) → (∃ x, strptime b = Ok x) →
  let book' := (add_birthday [n; b] book).2 in
  show_birthday (n :: extra) book'
  = (Ok (n ++ py "'s birthday: " ++ b), book').
Proof.
  intros [record Hget] Hok book'. subst book'.
  apply Birthday_Ok_iff in Hok as HB.
  rewrite add_birthday_run, Hget. cbv [input_error bindM].
  rewrite (on_record_run n _ book record _ _ Hget (set_birthday_Ok _ _ _ HB)).
  cbv [ret]. cbn [snd]. by rewrite show_birthday_run, dict_get_set_eq.
Qed.

Lemma show_birthday_after_add_birthday_witness :
  show_birthday [py "Bob"]
    (add_birthday [py "Bob"; py "1.1.2024"] book_of_bob).2
  = (Ok (py "Bob's birthday: 1.1.2024"),
     (add_birthday [py "Bob"; py "1.1.2024"] book_of_bob).2).
Proof.
  assert (∃ x, strptime (py "1.1.2024") = Ok x) as Hok.
  { eexists. vm_compute. reflexivity. }
  exact (show_birthday_after_add_birthday book_of_bob (py "Bob")
           (py "1.1.2024") [] (ex_intro _ bob_one_phone eq_refl) Hok).
Defined.

Lemma add_contact_answers args book : answers (add_contact args) book.
Proof.
  unfold answers.
  destruct args as [|n [|phone extra]];
    [eexists _, _; split; [reflexivity|by left]..|].
  rewrite add_contact_run.
  destruct (Phone_cases phone) as [HP|HP];
    destruct (dict_get n book) as [record|] eqn:Hget.
  - cbv [answers input_error bindM].
    rewrite (on_record_run n _ book record _ _ Hget (add_phone_Ok _ _ _ HP)).
    eexists _, _. split; [reflexivity|]. right.
    exists (OnRecord n (OpAddPhone phone)). split; [done|]. cbn [run_book_op].
    by rewrite (on_record_run n _ book record _ _ Hget (add_phone_Ok _ _ _ HP)).
  - unfold answers. rewrite (add_phone_Ok _ _ _ HP).
    eexists _, _. split; [reflexivity|]. right.
    exists (OpAddRecord n [OpAddPhone phone]). split; [done|].
    cbn [run_book_op build_record fold_left run_record_op].
    by rewrite (add_phone_Ok _ _ _ HP).
  - cbv [answers input_error bindM].
    rewrite (on_record_run n _ book record _ _ Hget (add_phone_Raise _ _ _ HP)).
    rewrite (dict_set_same _ _ _ Hget).
    eexists _, _. split; [reflexivity|by left].
  - unfold answers. rewrite (add_phone_Raise _ _ _ HP).
    eexists _, _. split; [reflexivity|by left].
Qed.

Lemma change_phone_answers args book : answers (change_phone args) book.
Proof.
  unfold answers.
  destruct args as [|n [|old_phone [|new_phone [|d args]]]];
    try (eexists _, _; split; [reflexivity|by left]).
  rewrite change_phone_run.
  destruct (dict_get n book) as [record|] eqn:Hget;
    [|eexists _, _; split; [reflexivity|by left]].
  assert (∃ out record', update_phone old_phone new_phone record = (out, record')
            ∧ (out = Ok true ∨ ∃ msg, out = Raise (ValueError msg)))
    as (out & record' & Hup & Hout).
  { rewrite update_phone_find. destruct (list_find _ _) as [[i ph]|].
    - destruct (Phone_cases new_phone) as [->| ->]; eexists _, _;
        (split; [reflexivity|]); [by left|right; by eexists].
    - eexists _, _. split; [reflexivity|]. right. by eexists. }
  assert (dict_set n record' book
          = run_book_op (OnRecord n (OpUpdatePhone old_phone new_phone)) book)
    as Hop.
  { cbn [run_book_op]. by rewrite (on_record_run n _ book record _ _ Hget Hup). }
  cbv [answers input_error bindM].
  rewrite (on_record_run n _ book record _ _ Hget Hup).
  destruct Hout as [->|[msg ->]]; eexists _, _;
    (split; [reflexivity|]); right;
    exists (OnRecord n (OpUpdatePhone old_phone new_phone)); by split.
Qed.

Lemma add_birthday_answers args book : answers (add_birthday args) book.
Proof.
  unfold answers.
  destruct args as [|n [|b [|d args]]];
    try (eexists _, _; split; [reflexivity|by left]).
  rewrite add_birthday_run.
  destruct (dict_get n book) as [record|] eqn:Hget;
    [|eexists _, _; split; [reflexivity|by left]].
  destruct (Birthday_cases b) as [HB|HB]; cbv [answers input_error bindM].
  - rewrite (on_record_run n _ book record _ _ Hget (set_birthday_Ok _ _ _ HB)).
    eexists _, _. split; [reflexivity|]. right.
    exists (OnRecord n (OpSetBirthday b)). split; [done|]. cbn [run_book_op].
    by rewrite (on_record_run n _ book record _ _ Hget (set_birthday_Ok _ _ _ HB)).
  - rewrite (on_record_run n _ book record _ _ Hget (set_birthday_Raise _ _ _ HB)).
    rewrite (dict_set_same _ _ _ Hget).
    eexists _, _. split; [reflexivity|by left].
Qed.

Lemma show_phones_answers args book :
  ∃ reply, show_phones args book = (Ok reply, book).
Proof.
  destruct args as [|n extra]; [by eexists|].
  rewrite show_phones_run. by eexists.
Qed.

Lemma show_birthday_answers args book :
  ∃ reply, show_birthday args book = (Ok reply, book).
Proof.
  destruct args as [|n extra]; [by eexists|].
  rewrite show_birthday_run. by eexists.
Qed.

(** One turn of [upcoming_birthdays] ends in its list or in a [ValueError],
    unless [today] is in the last week of the year 9999. *)
Lemma upcoming_birthdays_step_ValueError today record res :
  valid_date today → toordinal today + 7 <= _MAXORDINAL →
  (∃ out, upcoming_birthdays_step today record res = Ok out)
  ∨ (∃ msg, upcoming_birthdays_step today record res = Raise (ValueError msg)).
Proof.
  intros Ht Hmax. destruct (birthday record) as [b|] eqn:Hb.
  2:{ left. unfold upcoming_birthdays_step. rewrite Hb. by eexists. }
  destruct (strptime (value b)) as [x|e] eqn:Hs.
  2:{ right. apply strptime_Raise in Hs as Hmsg. destruct Hmsg as [msg ->].
      exists msg. unfold upcoming_birthdays_step. by rewrite Hb, Hs. }
  destruct (upcoming_birthdays_step_birthday today record res b x Ht Hb Hs)
    as (Hbad & Hbefore & _ & Hafter & Hin).
  pose proof (strptime_valid _ _ Hs) as Hx.
  destruct (decide (day x <= _days_in_month (year today) (month x))) as [Hd|Hd].
  2:{ right. eexists. apply Hbad. by rewrite anchored_valid_iff. }
  assert (valid_date (anchored today x)) as Ha by by rewrite anchored_valid_iff.
  left.
  destruct (decide (toordinal (anchored today x) < toordinal today)) as [?|?];
    [eexists; by apply Hbefore|].
  destruct (decide (toordinal today + 7 < toordinal (anchored today x)))
    as [?|?]; [eexists; by apply Hafter|].
  destruct (Hin Ha Hmax) as (r & _ & ->); [unfold in_window; lia|by eexists].
Qed.

Lemma upcoming_birthdays_loop_ValueError today records res :
  valid_date today → toordinal today + 7 <= _MAXORDINAL →
  (∃ out, upcoming_birthdays_loop today records res = Ok out)
  ∨ (∃ msg, upcoming_birthdays_loop today records res = Raise (ValueError msg)).
Proof.
  intros Ht Hmax. revert res.
  induction records as [|record records IH]; intros res; [left; by eexists|].
  cbn [upcoming_birthdays_loop].
  destruct (upcoming_birthdays_step_ValueError today record res Ht Hmax)
    as [[out ->]|[msg ->]]; cbn [bind]; [apply IH|right; by eexists].
Qed.

Lemma birthdays_answers today book :
  valid_date today → toordinal today + 7 <= _MAXORDINAL →
  ∃ reply, birthdays today book = (Ok reply, book).
Proof.
  intros Ht Hmax. unfold birthdays, upcoming_birthdays.
  cbv [input_error bindM get lift ret].
  destruct (upcoming_birthdays_loop_ValueError today (values book) [] Ht Hmax)
    as [[out ->]|[msg ->]]; [|by eexists].
  destruct out; by eexists.
Qed.

Lemma print_disk text w : disk (print text w) = disk w.
Proof. reflexivity. Qed.

Lemma fold_print_disk {A} (f : A → pystr) l w :
  disk (fold_left (λ w a, print (f a) w) l w) = disk w.
Proof. revert w. induction l as [|a l IH]; intros w; [done|]. cbn. by rewrite IH. Qed.

Lemma fold_print_console {A} (f : A → pystr) l w :
  console (fold_left (λ w a, print (f a) w) l w) = console w ++ map f l.
Proof.
  revert w. induction l as [|a l IH]; intros w; cbn [fold_left map].
  - by rewrite app_nil_r.
  - rewrite IH. cbn [print console]. by rewrite <- app_assoc.
Qed.

Lemma show_all_contacts_disk book w : disk (show_all_contacts book w) = disk w.
Proof.
  unfold show_all_contacts. destruct book; [done|].
  by rewrite fold_print_disk.
Qed.

Lemma show_commands_disk w : disk (show_commands w) = disk w.
Proof. reflexivity. Qed.

(** What a turn of the loop can do. *)
Lemma run_command_outcome today command args book w :
  command ≠ py "birthdays" ∨ before_last_week today →
  ∃ book' w', run_command today command args book w = (Ok book', w')
    ∧ disk w' = disk w
    ∧ (book' = book
       ∨ writing_command command ∧ ∃ o, growing book o ∧ book' = run_book_op o book).
Proof.
  intros Hday. unfold run_command, writing_command.
  repeat (case_bool_decide as Hc; [subst command|clear Hc]).
  - eexists _, _. split; [reflexivity|]. split; [done|by left].
  - destruct (add_contact_answers args book) as (reply & book' & Hrun & Hop).
    unfold reply_of. rewrite Hrun. eexists _, _. split; [reflexivity|].
    split; [done|]. destruct Hop as [->|Hop]; [by left|right; split; [auto|done]].
  - destruct (change_phone_answers args book) as (reply & book' & Hrun & Hop).
    unfold reply_of. rewrite Hrun. eexists _, _. split; [reflexivity|].
    split; [done|]. destruct Hop as [->|Hop]; [by left|right; split; [auto|done]].
  - destruct (show_phones_answers args book) as (reply & Hrun).
    unfold reply_of. rewrite Hrun. eexists _, _. split; [reflexivity|].
    split; [done|by left].
  - eexists _, _. split; [reflexivity|].
    split; [apply show_all_contacts_disk|by left].
  - destruct (add_birthday_answers args book) as (reply & book' & Hrun & Hop).
    unfold reply_of. rewrite Hrun. eexists _, _. split; [reflexivity|].
    split; [done|]. destruct Hop as [->|Hop]; [by left|right; split; [auto|done]].
  - destruct (show_birthday_answers args book) as (reply & Hrun).
    unfold reply_of. rewrite Hrun. eexists _, _. split; [reflexivity|].
    split; [done|by left].
  - destruct Hday as [Hne|[Ht Hmax]]; [done|].
    destruct (birthdays_answers today book Ht Hmax) as (reply & Hrun).
    unfold reply_of. rewrite Hrun. eexists _, _. split; [reflexivity|].
    split; [done|by left].
  - eexists _, _. split; [reflexivity|]. split; [done|by left].
  - eexists _, _. split; [reflexivity|]. split; [done|by left].
Qed.



Lemma birthdays_state today book : (birthdays today book).2 = book.
Proof.
  unfold birthdays. cbv [input_error bindM get lift ret].
  destruct (upcoming_birthdays today book) as [[|it out]|e]; [done..|].
  by destruct e.
Qed.

Lemma run_command_birthdays today args book w :
  run_command today (py "birthdays") args book w
  = reply_of (birthdays today) book w.
Proof. reflexivity. Qed.

Lemma reply_of_state handler book w book' w' :
  reply_of handler book w = (Ok book', w') → book' = (handler book).2.
Proof.
  unfold reply_of. destruct (handler book) as [[reply|e] book1]; [|done].
  by intros [= <- _].
Qed.

(** X13: only [add], [change] and [add-birthday] change the book: after a
    turn of the loop for any other command the book is as it was. *)
Theorem run_command_reading_leaves_book today (command : pystr)
    (args : list pystr) book (w : world) book' w' :
  ¬ writing_command command →
  run_command today command args book w = (Ok book', w') →
  book' = book.
Proof.
  intros Hread. unfold run_command, writing_command in *.
  repeat (case_bool_decide as Hc; [subst command|clear Hc]);
    try (intros [= <- _]; reflexivity);
    try (exfalso; apply Hread; auto; fail);
    intros Hrun; apply reply_of_state in Hrun as ->.
  - destruct (show_phones_answers args book) as (reply & Hrun). by rewrite Hrun.
  - destruct (show_birthday_answers args book) as (reply & Hrun).
    by rewrite Hrun.
  - apply birthdays_state.
Qed.

Lemma run_command_reading_leaves_book_witness :
  run_command saturday_18_may_2024 (py "birthdays") [] book_of_bob_20_may
    (mkWorld Absent [])
  = (Ok book_of_bob_20_may, mkWorld Absent [py "Bob: 20.05.2024"])
  ∧ book_of_bob_20_may = book_of_bob_20_may.
Proof.
  assert (run_command saturday_18_may_2024 (py "birthdays") []
            book_of_bob_20_may (mkWorld Absent [])
          = (Ok book_of_bob_20_may, mkWorld Absent [py "Bob: 20.05.2024"]))
    as Hrun by (vm_compute; reflexivity).
  split; [exact Hrun|].
  refine (run_command_reading_leaves_book _ _ _ _ _ _ _ _ Hrun).
  unfold writing_command. intros [H|[H|H]]; discriminate H.
Defined.

End Commands.

(** ** The list of upcoming birthdays, entry by entry *)

Section UpcomingEntries.
Import Py Eff Datetime Main.
Local Open Scope Z_scope.

Lemma entries_member today records parts it :
  Forall2 (entry_of today) records parts → it ∈ concat parts →
  ∃ record, record ∈ records ∧ entry_of today record [it].
Proof.
  induction 1 as [|record part records parts Hpart _ IH]; cbn [concat].
  - intros Hit. by apply not_elem_of_nil in Hit.
  - rewrite elem_of_app. intros [Hit|Hit].
    + destruct (entry_of_names _ _ _ _ Hpart Hit) as [-> _].
      exists record. split; [apply list_elem_of_here|done].
    + destruct (IH Hit) as (record' & Hrec & Hentry).
      exists record'. split; [by apply list_elem_of_further|done].
Qed.

Lemma entries_sublist today records parts :
  Forall2 (entry_of today) records parts →
  sublist (map item_name (concat parts)) (map (λ r, value (name r)) records).
Proof.
  induction 1 as [|record part records parts Hpart _ IH]; cbn [concat map].
  - constructor.
  - destruct Hpart; cbn [app map item_name].
    + by apply sublist_cons.
    + by apply sublist_cons.
    + by apply sublist_skip.
Qed.

(** X14: whenever [upcoming_birthdays] returns its list, the date of every
    entry is a day of the calendar that falls on a Monday to a Friday, not
    before [today] and at most nine days after it: seven for the window and
    two more for a Saturday moved to its Monday.  From the year 1000 on the
    text of the entry is one that [strptime] reads back as that date. *)
Theorem upcoming_birthdays_reports_working_days
    (today : date) (book : AddressBook) (res : list item) (it : item) :
  valid_date today → upcoming_birthdays today book = Ok res → it ∈ res →
  ∃ r, valid_date r
       ∧ item_birthday it = strftime r
       ∧ 0 <= weekday r <= 4
       ∧ toordinal today <= toordinal r <= toordinal today + 9
       ∧ (1000 <= year today → strptime (item_birthday it) = Ok r).
Proof.
  intros Ht Hres Hit. unfold upcoming_birthdays in Hres.
  apply upcoming_birthdays_loop_Ok in Hres as (parts & Hparts & ->); [|done].
  cbn [app] in Hit.
  destruct (entries_member _ _ _ _ Hparts Hit) as (record & _ & Hentry).
  inversion Hentry as [| |b x r Hb Hs Ha Hin Hr Heq].
  destruct Hr as (Hvr & Hweekend & Hweek). unfold in_window in Hin.
  pose proof (weekday_range (anchored today x)) as Hwa.
  assert (toordinal (anchored today x) <= toordinal r
          <= toordinal (anchored today x) + 2 ∧ 0 <= weekday r <= 4)
    as [Hord Hwr].
  { destruct (Z.le_gt_cases 5 (weekday (anchored today x))) as [H5|H5].
    - destruct (Hweekend H5) as [-> ->]. lia.
    - rewrite (Hweek H5). lia. }
  exists r. cbn [item_birthday].
  split; [done|]. split; [done|]. split; [done|]. split; [lia|].
  intros Hy.
  pose proof (year_toordinal_mono _ _ Ha Hvr (proj1 Hord)) as Hyr.
  cbn [anchored year] in Hyr.
  assert (1000 <= year r <= 9999) as Hrange.
  { destruct Hvr as (Hyr' & _). unfold MAXYEAR in Hyr'. lia. }
  rewrite (strftime_DD_MM_YYYY _ Hrange), (strptime_DD_MM_YYYY _ _ _ Hvr).
  by destruct r.
Qed.

Lemma upcoming_birthdays_reports_working_days_witness :
  ∃ r, valid_date r
       ∧ py "20.05.2024" = strftime r
       ∧ 0 <= weekday r <= 4
       ∧ toordinal saturday_11_may_2024 <= toordinal r
         <= toordinal saturday_11_may_2024 + 9
       ∧ (1000 <= year saturday_11_may_2024
          → strptime (py "20.05.2024") = Ok r).
Proof.
  assert (valid_date saturday_11_may_2024) as Ht.
  { unfold valid_date, valid_ymd; vm_compute; repeat split; discriminate. }
  assert (upcoming_birthdays saturday_11_may_2024 [(py "Bob", bob_18_may)]
          = Ok [mkItem (py "Bob") (py "20.05.2024")]) as Hres
    by (vm_compute; reflexivity).
  exact (upcoming_birthdays_reports_working_days saturday_11_may_2024
           [(py "Bob", bob_18_may)] [mkItem (py "Bob") (py "20.05.2024")]
           (mkItem (py "Bob") (py "20.05.2024")) Ht Hres
           (list_elem_of_here _ _)).
Defined.

(** X15: whenever [upcoming_birthdays] returns its list, the names of its
    entries, read in order, are names of the book in the order of the book,
    each record giving one entry at most; with one record per name no name
    comes twice in the list. *)
Theorem upcoming_birthdays_follows_book_order
    (today : date) (book : AddressBook) (res : list item) :
  valid_date today → upcoming_birthdays today book = Ok res →
  sublist (map item_name res) (names book)
  ∧ (NoDup (names book) → NoDup (map item_name res)).
Proof.
  intros Ht Hres. unfold upcoming_birthdays in Hres.
  apply upcoming_birthdays_loop_Ok in Hres as (parts & Hparts & ->); [|done].
  cbn [app]. pose proof (entries_sublist _ _ _ Hparts) as Hsub.
  split; [exact Hsub|]. intros Hnd. eapply sublist_NoDup; [exact Hnd|exact Hsub].
Qed.

Lemma upcoming_birthdays_follows_book_order_witness :
  sublist (map item_name [mkItem (py "Bob") (py "20.05.2024")])
          (names [(py "Bob", bob_18_may)])
  ∧ (NoDup (names [(py "Bob", bob_18_may)])
     → NoDup (map item_name [mkItem (py "Bob") (py "20.05.2024")])).
Proof.
  assert (valid_date saturday_11_may_2024) as Ht.
  { unfold valid_date, valid_ymd; vm_compute; repeat split; discriminate. }
  assert (upcoming_birthdays saturday_11_may_2024 [(py "Bob", bob_18_may)]
          = Ok [mkItem (py "Bob") (py "20.05.2024")]) as Hres
    by (vm_compute; reflexivity).
  exact (upcoming_birthdays_follows_book_order saturday_11_may_2024
           [(py "Bob", bob_18_may)] [mkItem (py "Bob") (py "20.05.2024")]
           Ht Hres).
Defined.

End UpcomingEntries.

(** ** The command line *)

Section CommandLine.
Import Py Eff Datetime Main.

Lemma split_loop_nonspace t s acc :
  Forall (λ c, isspace_char c = false) t →
  split_loop (t ++ s) acc = split_loop s (acc ++ t).
Proof.
  intros Ht. revert acc. induction Ht as [|c t Hc _ IH]; intros acc.
  - by rewrite app_nil_r.
  - cbn [app split_loop]. rewrite Hc, IH. by rewrite <- app_assoc.
Qed.

Lemma split_loop_blank sp s :
  blank sp → split_loop (sp ++ s) [] = split_loop s [].
Proof.
  induction 1 as [|c sp Hc _ IH]; [done|].
  cbn [app split_loop]. by rewrite Hc.
Qed.

Lemma split_loop_cut sp s acc :
  blank sp → sp ≠ [] → acc ≠ [] →
  split_loop (sp ++ s) acc = acc :: split_loop s [].
Proof.
  intros Hsp Hne Hacc. destruct Hsp as [|c sp Hc Hsp]; [done|].
  cbn [app split_loop]. rewrite Hc. destruct acc as [|a acc]; [done|].
  f_equal. by apply split_loop_blank.
Qed.


Lemma split_loop_words s acc :
  Forall (λ c, isspace_char c = false) acc →
  Forall word (split_loop s acc).
Proof.
  revert acc. induction s as [|c s IH]; intros acc Hacc; cbn [split_loop].
  - destruct acc as [|a acc]; constructor; [|constructor]. by split.
  - destruct (isspace_char c) eqn:Hc.
    + destruct acc as [|a acc]; [by apply IH|].
      constructor; [by split|]. by apply IH.
    + apply IH. apply Forall_app. split; [done|]. by repeat constructor.
Qed.

Lemma split_loop_nil s acc : split_loop s acc = [] ↔ acc = [] ∧ blank s.
Proof.
  revert acc. induction s as [|c s IH]; intros acc; cbn [split_loop].
  - destruct acc as [|a acc].
    + split; [intros _; split; [done|constructor]|done].
    + split; [done|by intros [? _]].
  - destruct (isspace_char c) eqn:Hc.
    + destruct acc as [|a acc].
      * rewrite IH. split; intros [_ H]; (split; [done|]).
        -- by constructor.
        -- by inversion H.
      * split; [done|]. by intros [? _].
    + rewrite IH. split.
      * intros [H _]. by destruct acc.
      * intros [_ H]. inversion H. congruence.
Qed.

Lemma split_loop_gapped w rest post :
  word w → gaps_and_words rest → blank post →
  split_loop (w ++ gapped rest ++ post) [] = w :: map snd rest.
Proof.
  intros Hw Hrest. revert w Hw.
  induction Hrest as [|[gap w'] rest (Hgap & Hne & Hw') _ IH];
    intros w [Hw Hchars] Hpost; cbn [fst snd] in *.
  - cbn [gapped map concat app]. rewrite split_loop_nonspace by done.
    cbn [app map]. destruct post as [|c post].
    + cbn [split_loop]. by destruct w.
    + rewrite <- (app_nil_r (c :: post)). by rewrite split_loop_cut.
  - change (gapped ((gap, w') :: rest)) with ((gap ++ w') ++ gapped rest).
    rewrite split_loop_nonspace by done. cbn [app map snd].
    rewrite <- !app_assoc. rewrite split_loop_cut by done.
    by rewrite IH.
Qed.

(** X16: [parse_command] cuts the line at white space.  A line made of a
    command and words, each word after a gap of white space of any kind and
    length, with maybe white space before the command and after the last
    word, gives back that command and those words; whatever it returns is
    made of words, none of them empty; and it raises an [IndexError], which
    nothing in [main] handles, exactly on a line that is empty or holds
    white space only. *)
Theorem parse_command_cuts_at_white_space (line : pystr) :
  (∀ command rest pre post,
     word command → gaps_and_words rest → blank pre → blank post →
     line = pre ++ command ++ gapped rest ++ post →
     parse_command line = Ok (command, map snd rest))
  ∧ (∀ command args, parse_command line = Ok (command, args) →
     word command ∧ Forall word args)
  ∧ (blank line
     ↔ parse_command line = Raise (IndexError (py "list index out of range"))).
Proof.
  unfold parse_command, split. split; [|split].
  - intros command rest pre post Hc Hrest Hpre Hpost ->.
    rewrite split_loop_blank by done.
    by rewrite split_loop_gapped.
  - intros command args Hrun.
    pose proof (split_loop_words line [] (Forall_nil _)) as Hwords.
    destruct (split_loop line []) as [|c a]; [done|].
    injection Hrun as -> ->. by apply list.Forall_cons in Hwords.
  - destruct (split_loop line []) as [|c a] eqn:Hs.
    + split; [done|]. intros _. by apply split_loop_nil in Hs as [_ H].
    + split; [|done]. intros Hb.
      assert (split_loop line [] = []) as H by by apply split_loop_nil.
      congruence.
Qed.

Lemma parse_command_cuts_at_white_space_witness :
  parse_command (py "  add Bob" ++ [9%N; 32%N] ++ py "12345 ")
  = Ok (py "add", [py "Bob"; py "12345"]).
Proof.
  destruct (parse_command_cuts_at_white_space
              (py "  add Bob" ++ [9%N; 32%N] ++ py "12345 ")) as [Hcut _].
  apply (Hcut (py "add") [(py " ", py "Bob"); ([9%N; 32%N], py "12345")]
           (py "  ") (py " ")).
  - split; [done|]. repeat constructor.
  - constructor; [|constructor; [|constructor]]; cbn [fst snd].
    + split; [repeat constructor|]. split; [done|].
      split; [done|repeat constructor].
    + split; [repeat constructor|]. split; [done|].
      split; [done|repeat constructor].
  - repeat constructor.
  - repeat constructor.
  - reflexivity.
Defined.

End CommandLine.

(** ** Sessions *)

Section Sessions.
Import Py Eff Datetime Main.
Local Open Scope Z_scope.
Implicit Types (book : AddressBook) (w : world) (st : store).

Lemma run_command_disk today command args book w :
  disk (run_command today command args book w).2 = disk w.
Proof.
  unfold run_command, reply_of.
  repeat (case_bool_decide as Hc; [clear Hc|clear Hc]);
    try reflexivity; try apply show_all_contacts_disk;
    match goal with
    | |- context [match ?h book with _ => _ end] =>
        by destruct (h book) as [[reply|e] book1]
    end.
Qed.

Lemma exit_command_decide command :
  bool_decide (command = py "exit") || bool_decide (command = py "close") = true
  ↔ exit_command command.
Proof.
  unfold exit_command. rewrite orb_true_iff, !bool_decide_eq_true. tauto.
Qed.

Lemma main_loop_exit today line inputs book w command args :
  parse_command line = Ok (command, args) → exit_command command →
  main_loop ((today, line) :: inputs) book w
  = (Ok tt, show_message (py "Goodbye!") (mkWorld (save_data book) (console w))).
Proof.
  intros Hparse Hexit. apply exit_command_decide in Hexit.
  cbn [main_loop]. by rewrite Hparse, Hexit.
Qed.

Lemma main_loop_go_on today line inputs book w command args :
  parse_command line = Ok (command, args) → ¬ exit_command command →
  main_loop ((today, line) :: inputs) book w
  = match run_command today command args book w with
    | (Ok book', w') => main_loop inputs book' w'
    | (Raise e, w') => (Raise e, w')
    end.
Proof.
  intros Hparse Hexit. rewrite <- exit_command_decide in Hexit.
  apply not_true_is_false in Hexit.
  cbn [main_loop]. by rewrite Hparse, Hexit.
Qed.

(** The loop writes the file when it ends on [exit] or [close], and at no
    other time. *)
Lemma main_loop_disk inputs book w :
  match main_loop inputs book w with
  | (Raise e, w') => disk w' = disk w
  | (Ok _, w') =>
      (∃ book', disk w' = Saved book')
      ∧ list.last (console w') = Some (py "Goodbye!")
  end.
Proof.
  revert book w. induction inputs as [|[today line] inputs IH]; intros book w;
    [done|].
  destruct (parse_command line) as [[command args]|e] eqn:Hparse.
  2:{ cbn [main_loop]. by rewrite Hparse. }
  destruct (decide (exit_command command)) as [Hexit|Hexit].
  - rewrite (main_loop_exit _ _ _ _ _ _ _ Hparse Hexit).
    split; [by eexists|]. cbn [show_message print console].
    by rewrite last_snoc.
  - rewrite (main_loop_go_on _ _ _ _ _ _ _ Hparse Hexit).
    pose proof (run_command_disk today command args book w) as Hdisk.
    destruct (run_command today command args book w) as [[book1|e] w1];
      cbn [snd] in Hdisk; [|done].
    specialize (IH book1 w1).
    destruct (main_loop inputs book1 w1) as [[u|e] w2]; [done|congruence].
Qed.

Lemma load_data_loadable st :
  loadable st →
  ∃ book, load_data st = Ok book
          ∧ (st = Absent ∧ book = [] ∨ st = Saved book).
Proof. intros [->|[book ->]]; eexists; (split; [reflexivity|]); auto. Qed.

(** X17: [main] writes the file of the book at one moment only, when it
    reads [exit] or [close].  A run that ends in an exception, be it at the
    start, on a line without a word, at the end of the input or in a
    handler, leaves the file as it found it, so that every change of the
    session is lost; a run that ends normally has said goodbye last and has
    left a file from which [load_data] returns a book. *)
Theorem main_saves_only_on_exit st (inputs : list (date * pystr)) :
  match main st inputs with
  | (Raise e, w) => disk w = st
  | (Ok _, w) =>
      (∃ book, disk w = Saved book ∧ load_data (disk w) = Ok book)
      ∧ list.last (console w) = Some (py "Goodbye!")
  end.
Proof.
  unfold main. destruct (load_data st) as [book|e]; [|done].
  pose proof (main_loop_disk inputs book (show_message welcome (mkWorld st [])))
    as Hloop.
  destruct (main_loop _ _ _) as [[u|e] w]; [|done].
  destruct Hloop as [[book' Hdisk] Hlast]. split; [|done].
  exists book'. by rewrite Hdisk.
Qed.

(** What a turn of the loop keeps. *)
Lemma run_command_invariant today command args book w book' w' :
  book_ok book → keyed_by_name book →
  run_command today command args book w = (Ok book', w') →
  book_ok book' ∧ keyed_by_name book'.
Proof.
  intros Hok Hkeyed Hrun.
  destruct (decide (command = py "birthdays")) as [->|Hne].
  { rewrite run_command_birthdays in Hrun. apply reply_of_state in Hrun as ->.
    by rewrite birthdays_state. }
  destruct (run_command_outcome today command args book w (or_introl Hne))
    as (book1 & w1 & Hrun1 & _ & Hop).
  rewrite Hrun1 in Hrun. injection Hrun as <- <-.
  destruct Hop as [->|[_ (o & _ & ->)]]; [done|].
  split; [by apply run_book_op_ok|by apply run_book_op_keyed].
Qed.

Lemma main_loop_store_ok inputs book w :
  book_ok book → keyed_by_name book → store_ok (disk w) →
  store_ok (disk (main_loop inputs book w).2).
Proof.
  revert book w. induction inputs as [|[today line] inputs IH];
    intros book w Hok Hkeyed Hst; [done|].
  destruct (parse_command line) as [[command args]|e] eqn:Hparse.
  2:{ cbn [main_loop]. by rewrite Hparse. }
  destruct (decide (exit_command command)) as [Hexit|Hexit].
  - rewrite (main_loop_exit _ _ _ _ _ _ _ Hparse Hexit). by split.
  - rewrite (main_loop_go_on _ _ _ _ _ _ _ Hparse Hexit).
    pose proof (run_command_disk today command args book w) as Hdisk.
    destruct (run_command today command args book w) as [[book1|e] w1] eqn:Hrun;
      cbn [snd] in Hdisk |- *; [|by rewrite Hdisk].
    destruct (run_command_invariant _ _ _ _ _ _ _ Hok Hkeyed Hrun).
    apply IH; [done..|by rewrite Hdisk].
Qed.

(** X18: a session never spoils the file.  When [main] starts without a file,
    or on a file whose book holds phones of ten digit characters, birthdays
    that [strptime] reads and each record under its own name, then, whatever
    is typed and however the run ends, the file is still absent or is such a
    book. *)
Theorem main_keeps_file_valid st (inputs : list (date * pystr)) :
  store_ok st → store_ok (disk (main st inputs).2).
Proof.
  intros Hst. unfold main.
  destruct st as [| |e|book]; [|done..|].
  - apply main_loop_store_ok; [constructor|split; constructor|done].
  - destruct Hst as [Hok Hkeyed]. by apply main_loop_store_ok.
Qed.

Lemma main_keeps_file_valid_witness :
  store_ok (Saved book_of_bob)
  ∧ store_ok
      (disk (main (Saved book_of_bob)
               [(saturday_18_may_2024, py "add Al 12345");
                (saturday_18_may_2024, py "add-birthday Bob 1.1.2024");
                (saturday_18_may_2024, py "close")]).2).
Proof.
  assert (store_ok (Saved book_of_bob)) as Hst.
  { split; [|split].
    - constructor; [|constructor]. split.
      + constructor; [|constructor]. apply Phone_Ok_iff. reflexivity.
      + intros b Hb. discriminate Hb.
    - apply NoDup_cons_2; [apply not_elem_of_nil|apply NoDup_nil_2].
    - constructor; [reflexivity|constructor]. }
  split; [exact Hst|].
  exact (main_keeps_file_valid (Saved book_of_bob) _ Hst).
Defined.










Lemma show_all_contacts_console book w :
  console (show_all_contacts book w)
  = console w
    ++ match book with
       | [] => [py "Address book is empty."]
       | _ => (newline ++ py "Address Book:") :: map Record_str (values book)
       end.
Proof.
  unfold show_all_contacts. destruct book as [|kv book]; [done|].
  rewrite fold_print_console. cbn [print console]. by rewrite <- app_assoc.
Qed.

(** X21: [all] shows the book as [display_all] words it.  For a book that is
    not empty the view prints a heading and then one line per record, in
    the order of the book, and [display_all] returns those very lines
    joined by line feeds.  Neither changes the book or the file. *)
Theorem show_all_contacts_prints_display_all book w :
  book ≠ [] →
  ∃ lines,
    console (show_all_contacts book w)
    = console w ++ (newline ++ py "Address Book:") :: lines
    ∧ disk (show_all_contacts book w) = disk w
    ∧ lines = map Record_str (values book)
    ∧ display_all book = (Ok (join newline lines), book).
Proof.
  intros Hne. exists (map Record_str (values book)).
  rewrite show_all_contacts_console, show_all_contacts_disk.
  by destruct book.
Qed.

Lemma show_all_contacts_prints_display_all_witness :
  ∃ lines,
    console (show_all_contacts book_of_bob_20_may (mkWorld Absent []))
    = (newline ++ py "Address Book:") :: lines
    ∧ disk (show_all_contacts book_of_bob_20_may (mkWorld Absent [])) = Absent
    ∧ lines = [py "Name: Bob, phones: 1234567890, birthday: 20.05.2024"]
    ∧ display_all book_of_bob_20_may
      = (Ok (join newline lines), book_of_bob_20_may).
Proof.
  assert (book_of_bob_20_may ≠ []) as Hne by discriminate.
  exact (show_all_contacts_prints_display_all book_of_bob_20_may
           (mkWorld Absent []) Hne).
Defined.

End Sessions.

Section NothingRemoved.
Import Py Eff Datetime Main.
Implicit Types (book : AddressBook) (record : RecordObj) (n : pystr).

Lemma kept_refl book : kept book book.
Proof.
  split; [done|]. intros n record Hget. exists record. by repeat split.
Qed.

Lemma dict_set_kept_present n record record' book :
  dict_get n book = Some record → name record' = name record →
  (length (phones record) <= length (phones record'))%nat →
  (is_Some (birthday record) → is_Some (birthday record')) →
  kept book (dict_set n record' book).
Proof.
  intros Hget Hname Hlen Hb. split.
  - rewrite keys_dict_set_present; [done|]. by eapply dict_get_Some_keys.
  - intros n0 record0 Hget0. destruct (decide (n0 = n)) as [->|Hne].
    + rewrite dict_get_set_eq. exists record'.
      assert (record0 = record) as -> by congruence. by repeat split.
    + rewrite dict_get_set_ne by done. exists record0. by repeat split.
Qed.

Lemma dict_set_kept_absent n record book :
  dict_get n book = None → kept book (dict_set n record book).
Proof.
  intros Hget. split.
  - rewrite keys_dict_set_absent by by apply dict_get_None_keys.
    by apply prefix_app_r.
  - intros n0 record0 Hget0. destruct (decide (n0 = n)) as [->|Hne];
      [congruence|].
    rewrite dict_get_set_ne by done. exists record0. by repeat split.
Qed.

Lemma run_record_op_kept o self :
  (∀ p, o ≠ OpDeletePhone p) →
  name (run_record_op o self) = name self
  ∧ (length (phones self) <= length (phones (run_record_op o self)))%nat
  ∧ (is_Some (birthday self) → is_Some (birthday (run_record_op o self))).
Proof.
  intros Hdel. split; [apply run_record_op_name|].
  destruct o as [p|old_phone new_phone|p|b]; cbn [run_record_op].
  - destruct (Phone p) as [f|e] eqn:HP.
    + rewrite (add_phone_Ok _ _ _ HP). cbn. rewrite length_app. split; [lia|done].
    + by rewrite (add_phone_Raise _ _ _ HP).
  - rewrite update_phone_find. destruct (list_find _ _) as [[i x]|]; [|done].
    destruct (Phone new_phone) as [f|e]; [|done].
    cbn. by rewrite length_insert.
  - by destruct (Hdel p).
  - destruct (Birthday b) as [f|e] eqn:HB.
    + rewrite (set_birthday_Ok _ _ _ HB). cbn. split; [done|]. by eexists.
    + by rewrite (set_birthday_Raise _ _ _ HB).
Qed.

Lemma on_record_kept n o book :
  (∀ p, o ≠ OpDeletePhone p) → kept book (run_book_op (OnRecord n o) book).
Proof.
  intros Hdel.
  assert (∀ {A} (method : M RecordObj A),
            (∀ self, (method self).2 = run_record_op o self) →
            kept book (on_record n method book).2) as Hrun.
  { intros A method Hm. unfold on_record.
    destruct (dict_get n book) as [record|] eqn:Hget; [|apply kept_refl].
    specialize (Hm record). destruct (method record) as [out record'].
    cbn [snd] in *. subst record'.
    destruct (run_record_op_kept o record Hdel) as (Hname & Hlen & Hb).
    by eapply dict_set_kept_present. }
  destruct o as [p|old_phone new_phone|p|b]; cbn [run_book_op];
    by apply Hrun.
Qed.

Lemma growing_kept book o : growing book o → kept book (run_book_op o book).
Proof.
  destruct o as [n o|n script|n]; cbn [growing].
  - intros Hgrow. apply on_record_kept. intros p ->. done.
  - intros Hget. cbn [run_book_op]. rewrite add_record_run. cbn [snd].
    rewrite build_record_name. by apply dict_set_kept_absent.
  - done.
Qed.

(** X22: nothing that is typed takes a contact, a phone or a birthday out of
    the book: no command reaches [remove_record] or [delete_phone].  After
    a turn of the loop the names of the book are those of before, in their
    order, with one more at the end at most, and the record under each of
    them has kept its name, has as many phones as before or more, and
    still has a birthday if it had one. *)
Theorem run_command_never_removes today (command : pystr)
    (args : list pystr) book (w : world) book' w' :
  run_command today command args book w = (Ok book', w') →
  kept book book'
  ∧ (length (keys book') <= S (length (keys book)))%nat.
Proof.
  intros Hrun.
  destruct (decide (command = py "birthdays")) as [->|Hne].
  { rewrite run_command_birthdays in Hrun. apply reply_of_state in Hrun as ->.
    rewrite birthdays_state. split; [apply kept_refl|lia]. }
  destruct (run_command_outcome today command args book w (or_introl Hne))
    as (book1 & w1 & Hrun1 & _ & Hop).
  rewrite Hrun1 in Hrun. injection Hrun as <- <-.
  destruct Hop as [->|[_ (o & Hgrow & ->)]]; [split; [apply kept_refl|lia]|].
  split; [by apply growing_kept|].
  destruct o as [n o|n script|n]; cbn [growing] in Hgrow; [| |done].
  - assert (∀ {A} (method : M RecordObj A),
              length (keys (on_record n method book).2) = length (keys book))
      as Hlen.
    { intros A method. unfold on_record.
      destruct (dict_get n book) as [record|] eqn:Hget; [|done].
      destruct (method record) as [out record']. cbn [snd].
      rewrite keys_dict_set_present; [done|]. by eapply dict_get_Some_keys. }
    destruct o; cbn [run_book_op]; rewrite Hlen; lia.
  - cbn [run_book_op]. rewrite add_record_run. cbn [snd].
    rewrite build_record_name.
    rewrite keys_dict_set_absent by by apply dict_get_None_keys.
    rewrite length_app. cbn. lia.
Qed.

Lemma run_command_never_removes_witness :
  kept book_of_bob
    [(py "Bob", bob_one_phone);
     (py "Al", mkRecord (Name (py "Al")) [mkField (py "0987654321")] None)]
  ∧ (2 <= 2)%nat.
Proof.
  exact (run_command_never_removes saturday_18_may_2024 (py "add")
           [py "Al"; py "0987654321"] book_of_bob (mkWorld Absent []) _ _
           eq_refl).
Defined.

End NothingRemoved.
